(** * DebateMate: the timed-debate page (src/app/timed-debate/page.tsx)

  A shallow embedding of the [DebatePage] component: its React state,
  its event handlers, the countdown effect with the closure captured by
  the interval callback, and the continuation of the request to the
  response service.

  Conventions.
  - A JavaScript number that holds seconds or minutes is a double: NaN, an
    infinity, or a finite value ([Num]).  Every finite value the page
    stores is an integer (it comes from [parseInt], a literal, [Math.floor]
    or [+], [-], [*], [%] on integers), so a finite double is kept as its
    integer value and every operation rounds to the nearest double, ties to
    even, as IEEE 754 does.  The two zeros are one value: the page never
    tells them apart.  Indices into [rounds] are integers ([Z]).
  - A string is a sequence of characters with codes 0..255 ([string]);
    the white space of [trim] and [parseInt] is the JavaScript white
    space that falls in that range.
  - A handler reads the state of the render that created it and writes
    the current state.  Handlers attached to the page are created by the
    latest render; the interval callback is created when the timer effect
    runs, and the effect runs only when [timerSettings.active] or
    [timeRemaining] has changed. *)

From Stdlib Require Import ZArith String Ascii Bool DecimalString DecimalPos Lia.
From stdpp Require Import base list.

Local Open Scope string_scope.
Local Open Scope list_scope.
Local Open Scope Z_scope.
Local Set Warnings "-register-all".

(** ** Numbers *)

Inductive Num : Type :=
| NaN
| Inf (negative : bool)
| Fin (z : Z).

Module JsNum.

(** The double nearest to a natural number [a], ties to even: exact up to
    53 bits, and above that the nearest multiple of the unit in the last
    place. *)
Definition roundMagnitude (a : Z) : Z :=
  let n := Z.log2 a in
  if n <=? 52 then a
  else
    let unit := 2 ^ (n - 52) in
    let q := a / unit in
    let r := a mod unit in
    let half := unit / 2 in
    let m := if r <? half then q
             else if half <? r then q + 1
             else if Z.even q then q else q + 1 in
    m * unit.

(** The double nearest to an integer; from [2^1024] in magnitude the
    rounded value is an infinity. *)
Definition ofZ (z : Z) : Num :=
  let a := roundMagnitude (Z.abs z) in
  if 2 ^ 1024 <=? a then Inf (z <? 0) else Fin (Z.sgn z * a).

Definition neg (x : Num) : Num :=
  match x with
  | NaN => NaN
  | Inf b => Inf (negb b)
  | Fin z => Fin (- z)
  end.

Definition add (x y : Num) : Num :=
  match x, y with
  | NaN, _ | _, NaN => NaN
  | Inf a, Inf b => if Bool.eqb a b then Inf a else NaN
  | Inf a, Fin _ => Inf a
  | Fin _, Inf b => Inf b
  | Fin a, Fin b => ofZ (a + b)
  end.

Definition sub (x y : Num) : Num := add x (neg y).

Definition mul (x y : Num) : Num :=
  match x, y with
  | NaN, _ | _, NaN => NaN
  | Inf a, Inf b => Inf (xorb a b)
  | Inf a, Fin z | Fin z, Inf a =>
      if z =? 0 then NaN else Inf (xorb a (z <? 0))
  | Fin a, Fin b => ofZ (a * b)
  end.

(** [x < y], [x === y], [x <= y]: false when an operand is NaN. *)
Definition ltb (x y : Num) : bool :=
  match x, y with
  | NaN, _ | _, NaN => false
  | Inf a, Inf b => a && negb b
  | Inf a, Fin _ => a
  | Fin _, Inf b => negb b
  | Fin a, Fin b => a <? b
  end.

Definition eqb (x y : Num) : bool :=
  match x, y with
  | Inf a, Inf b => Bool.eqb a b
  | Fin a, Fin b => a =? b
  | _, _ => false
  end.

Definition leb (x y : Num) : bool := ltb x y || eqb x y.

(** [Object.is(x, y)], by which React compares state and dependencies. *)
Definition same (x y : Num) : bool :=
  match x, y with
  | NaN, NaN => true
  | _, _ => eqb x y
  end.

(** Truthiness: NaN and 0 are falsy. *)
Definition truthy (x : Num) : bool :=
  match x with
  | NaN => false
  | Inf _ => true
  | Fin z => negb (z =? 0)
  end.

(** The double nearest to [n / d] for [0 < n], [0 < d], as mantissa and
    exponent: the value is [m * 2 ^ e] with [2^52 <= m <= 2^53]. *)
Definition roundRatio (n d : Z) : Z * Z :=
  let e0 := Z.log2 n - Z.log2 d - 52 in
  let scaled e := (n * 2 ^ Z.max 0 (- e), d * 2 ^ Z.max 0 e) in
  let e := let '(N, D) := scaled e0 in if N / D <? 2 ^ 52 then e0 - 1 else e0 in
  let '(N, D) := scaled e in
  let q := N / D in
  let r := N mod D in
  let m := if 2 * r <? D then q
           else if D <? 2 * r then q + 1
           else if Z.even q then q else q + 1 in
  (m, e).

(** [Math.floor(m * 2^e)] and [Math.ceil(m * 2^e)]. *)
Definition floorScaled (m e : Z) : Z :=
  if 0 <=? e then m * 2 ^ e else m / 2 ^ (- e).

Definition ceilScaled (m e : Z) : Z :=
  if 0 <=? e then m * 2 ^ e else - ((- m) / 2 ^ (- e)).

(** [Math.floor(x / d)] for an integer literal [d > 0]. *)
Definition floorDiv (x : Num) (d : Z) : Num :=
  match x with
  | NaN => NaN
  | Inf b => Inf b
  | Fin z =>
      if z =? 0 then Fin 0
      else
        let '(m, e) := roundRatio (Z.abs z) d in
        if 0 <? z then Fin (floorScaled m e) else Fin (- ceilScaled m e)
  end.

(** [x % d] for an integer literal [d > 0]: exact, with the sign of [x]. *)
Definition rem (x : Num) (d : Z) : Num :=
  match x with
  | Fin z => Fin (Z.rem z d)
  | _ => NaN
  end.

End JsNum.

(** ** Strings: [String.prototype.trim] and [parseInt] *)

Module JsString.

(** WhiteSpace and LineTerminator code points below 256:
    TAB, LF, VT, FF, CR, SP and NBSP. *)
Definition isWhiteSpace (c : ascii) : bool :=
  match nat_of_ascii c with
  | 9%nat | 10%nat | 11%nat | 12%nat | 13%nat | 32%nat | 160%nat => true
  | _ => false
  end.

Fixpoint trimStart (s : string) : string :=
  match s with
  | String c r => if isWhiteSpace c then trimStart r else s
  | EmptyString => EmptyString
  end.

Fixpoint rev_append (s acc : string) : string :=
  match s with
  | String c r => rev_append r (String c acc)
  | EmptyString => acc
  end.

Definition rev (s : string) : string := rev_append s EmptyString.

Definition trimEnd (s : string) : string := rev (trimStart (rev s)).

Definition trim (s : string) : string := trimEnd (trimStart s).

(** Truthiness of a string: the empty string is the only falsy one. *)
Definition truthy (s : string) : bool :=
  match s with
  | EmptyString => false
  | String _ _ => true
  end.

(** Value of a character as a digit in a radix up to 36. *)
Definition digitValue (c : ascii) : option Z :=
  let n := Z.of_nat (nat_of_ascii c) in
  if (48 <=? n) && (n <=? 57) then Some (n - 48)
  else if (97 <=? n) && (n <=? 122) then Some (n - 87)
  else if (65 <=? n) && (n <=? 90) then Some (n - 55)
  else None.

(** The longest prefix of radix-[R] digits, read as a number; [acc] is
    [None] until a digit has been read. *)
Fixpoint parseDigits (R : Z) (s : string) (acc : option Z) : option Z :=
  match s with
  | String c r =>
      match digitValue c with
      | Some d =>
          if d <? R
          then parseDigits R r (Some (match acc with
                                      | Some a => a * R + d
                                      | None => d
                                      end))
          else acc
      | None => acc
      end
  | EmptyString => acc
  end.

Definition stripSign (s : string) : Z * string :=
  match s with
  | String "-" r => (-1, r)
  | String "+" r => (1, r)
  | _ => (1, s)
  end.

Definition stripHexPrefix (s : string) : Z * string :=
  match s with
  | String "0" (String "x" r) => (16, r)
  | String "0" (String "X" r) => (16, r)
  | _ => (10, s)
  end.

(** The integer that [parseInt(s)], with no radix argument, reads from
    [s] before rounding; [None] when there is no digit. *)
Definition parseIntExact (s : string) : option Z :=
  let '(sign, s1) := stripSign (trimStart s) in
  let '(R, s2) := stripHexPrefix s1 in
  match parseDigits R s2 None with
  | Some n => Some (sign * n)
  | None => None
  end.

(** [parseInt(s)]: the double nearest to the integer read, or NaN. *)
Definition parseInt (s : string) : Num :=
  match parseIntExact s with
  | Some n => JsNum.ofZ n
  | None => NaN
  end.

(** [parseInt(s) || d]: NaN and zero are falsy. *)
Definition parseIntOr (s : string) (d : Num) : Num :=
  let n := parseInt s in
  if JsNum.truthy n then n else d.

End JsString.

(** ** Data model *)

(** Values that [JSON.parse] can return, and [undefined].  Numbers are kept
    as integers; nothing in the page inspects them. *)
Inductive JsValue : Type :=
| JsUndefined
| JsNull
| JsBool (b : bool)
| JsNumber (n : Z)
| JsString (s : string)
| JsArray (items : list JsValue)
| JsObject (fields : list (string * JsValue)).

(** Members of a parsed object in source order: a later duplicate wins. *)
Fixpoint lastField (k : string) (fields : list (string * JsValue))
  (found : JsValue) : JsValue :=
  match fields with
  | [] => found
  | (k', v) :: rest =>
      lastField k rest (if String.eqb k k' then v else found)
  end.

(** [data.aiResponse]; [None] is the TypeError raised on [null]. *)
Definition aiResponseOf (data : JsValue) : option JsValue :=
  match data with
  | JsUndefined | JsNull => None
  | JsObject fields => Some (lastField "aiResponse" fields JsUndefined)
  | _ => Some JsUndefined
  end.

Inductive MessageType : Type := user | ai.

Module Message.
Record t : Type := mk {
  type : MessageType;
  content : JsValue;
  stance : option string;
  isError : option bool
}.
End Message.

Record TimerSettings : Type := mkTimerSettings {
  minutes : Num;
  seconds : Num;
  active : bool
}.

Record RoundStructure : Type := mkRound {
  name : string;
  duration : Num
}.

(** The four audio elements of the page. *)
Inductive Cue : Type := thirtySecond | fifteenSecond | fiveSecond | timeUp.

(** What the page does to the outside: play a sound, or POST
    [{userInput, stance}] to /api/debate. *)
Inductive Effect : Type :=
| PlayCue (c : Cue)
| Fetch (userInput stance : string).

(** How one [fetch] call ends: the promise rejects, or a response arrives
    whose body is JSON ([Some]) or not ([None], [res.json()] rejects). *)
Inductive FetchOutcome : Type :=
| NetworkError
| HttpResponse (status : Z) (body : option JsValue).

(** The [useState] cells of [DebatePage]. *)
Record State : Type := mkState {
  userInput : string;
  loading : bool;
  stance : string;
  conversations : list Message.t;
  showTimerSettings : bool;
  timerSettings : TimerSettings;
  timeRemaining : Num;
  soundEnabled : bool;
  currentRound : Z;
  rounds : list RoundStructure
}.

Definition setUserInput (v : string) (s : State) : State :=
  mkState v (loading s) (stance s) (conversations s) (showTimerSettings s)
    (timerSettings s) (timeRemaining s) (soundEnabled s) (currentRound s)
    (rounds s).

Definition setLoading (v : bool) (s : State) : State :=
  mkState (userInput s) v (stance s) (conversations s) (showTimerSettings s)
    (timerSettings s) (timeRemaining s) (soundEnabled s) (currentRound s)
    (rounds s).

Definition setStance (v : string) (s : State) : State :=
  mkState (userInput s) (loading s) v (conversations s) (showTimerSettings s)
    (timerSettings s) (timeRemaining s) (soundEnabled s) (currentRound s)
    (rounds s).

Definition setConversations (v : list Message.t) (s : State) : State :=
  mkState (userInput s) (loading s) (stance s) v (showTimerSettings s)
    (timerSettings s) (timeRemaining s) (soundEnabled s) (currentRound s)
    (rounds s).

Definition setShowTimerSettings (v : bool) (s : State) : State :=
  mkState (userInput s) (loading s) (stance s) (conversations s) v
    (timerSettings s) (timeRemaining s) (soundEnabled s) (currentRound s)
    (rounds s).

Definition setTimerSettings (v : TimerSettings) (s : State) : State :=
  mkState (userInput s) (loading s) (stance s) (conversations s)
    (showTimerSettings s) v (timeRemaining s) (soundEnabled s)
    (currentRound s) (rounds s).

Definition setTimeRemaining (v : Num) (s : State) : State :=
  mkState (userInput s) (loading s) (stance s) (conversations s)
    (showTimerSettings s) (timerSettings s) v (soundEnabled s)
    (currentRound s) (rounds s).

Definition setSoundEnabled (v : bool) (s : State) : State :=
  mkState (userInput s) (loading s) (stance s) (conversations s)
    (showTimerSettings s) (timerSettings s) (timeRemaining s) v
    (currentRound s) (rounds s).

Definition setCurrentRound (v : Z) (s : State) : State :=
  mkState (userInput s) (loading s) (stance s) (conversations s)
    (showTimerSettings s) (timerSettings s) (timeRemaining s)
    (soundEnabled s) v (rounds s).

Definition setRounds (v : list RoundStructure) (s : State) : State :=
  mkState (userInput s) (loading s) (stance s) (conversations s)
    (showTimerSettings s) (timerSettings s) (timeRemaining s)
    (soundEnabled s) (currentRound s) v.

(** The state of the first render. *)
Definition initialState : State :=
  {| userInput := "";
     loading := false;
     stance := "pro";
     conversations := [];
     showTimerSettings := false;
     timerSettings := mkTimerSettings (Fin 2) (Fin 0) false;
     timeRemaining := Fin 120;
     soundEnabled := true;
     currentRound := 0;
     rounds := [ mkRound "Opening Statement" (Fin 120);
                 mkRound "Rebuttal" (Fin 180);
                 mkRound "Closing Statement" (Fin 60) ] |}.

(** ** Handlers

    Every function of the component body is a closure over the state of
    the render that created it: [env] below.  A call [setX v] replaces
    cell [X] of the current state [s]; [setX (prev => f prev)] applies [f]
    to the current cell. *)

(** [rounds[i]]: [None] is [undefined]. *)
Definition roundAt (rs : list RoundStructure) (i : Z) : option RoundStructure :=
  if i <? 0 then None else rs !! Z.to_nat i.

(** [Array.prototype.filter] with the predicate applied to the index. *)
Fixpoint filterIndexFrom {A : Type} (keep : nat -> bool) (i : nat)
  (l : list A) : list A :=
  match l with
  | [] => []
  | x :: rest =>
      if keep i then x :: filterIndexFrom keep (S i) rest
      else filterIndexFrom keep (S i) rest
  end.

Definition filterIndex {A : Type} (keep : nat -> bool) (l : list A) : list A :=
  filterIndexFrom keep 0 l.

Definition withActive (b : bool) (ts : TimerSettings) : TimerSettings :=
  mkTimerSettings (minutes ts) (seconds ts) b.

(** [timerSettings.minutes * 60 + timerSettings.seconds]. *)
Definition totalSeconds (ts : TimerSettings) : Num :=
  JsNum.add (JsNum.mul (minutes ts) (Fin 60)) (seconds ts).

(** The sounds played for a new value of the countdown; the four tests of
    the source are independent [if]s on one number. *)
Definition cuesAt (newTime : Num) : list Effect :=
  (if JsNum.eqb newTime (Fin 30) then [PlayCue thirtySecond] else []) ++
  (if JsNum.eqb newTime (Fin 15) then [PlayCue fifteenSecond] else []) ++
  (if JsNum.eqb newTime (Fin 5) then [PlayCue fiveSecond] else []) ++
  (if JsNum.eqb newTime (Fin 0) then [PlayCue timeUp] else []).

Definition placeholderText : string :=
  "Unable to generate response. Please try again.".

Definition errorMessage : Message.t :=
  Message.mk ai (JsString placeholderText) None (Some true).

Definition aiMessage (v : JsValue) : Message.t :=
  Message.mk ai v None None.

Definition userMessage (text side : string) : Message.t :=
  Message.mk user (JsString text) (Some side) None.

Section Render.

Variable env : State.

Definition startTimer (s : State) : State :=
  let total := totalSeconds (timerSettings env) in
  setShowTimerSettings false
    (setTimerSettings (withActive true (timerSettings env))
       (setTimeRemaining total s)).

Definition pauseTimer (s : State) : State :=
  setTimerSettings (withActive false (timerSettings env)) s.

Definition resetTimer (s : State) : State :=
  setTimeRemaining (totalSeconds (timerSettings env)) (pauseTimer s).

(** When [rounds[nextRoundIndex]] is undefined the read of [.duration]
    throws after [setCurrentRound] has been called. *)
Definition nextRound (s : State) : State :=
  if currentRound env <? Z.of_nat (length (rounds env)) - 1 then
    let nextRoundIndex := currentRound env + 1 in
    let s1 := setCurrentRound nextRoundIndex s in
    match roundAt (rounds env) nextRoundIndex with
    | Some r =>
        let nextDuration := duration r in
        setTimeRemaining nextDuration
          (setTimerSettings
             (mkTimerSettings (JsNum.floorDiv nextDuration 60)
                (JsNum.rem nextDuration 60) false)
             s1)
    | None => s1
    end
  else s.

(** [startDebate] up to its first [await]: the state it writes and the
    request it sends. *)
Definition startDebate (s : State) : State * list Effect :=
  if negb (JsString.truthy (JsString.trim (userInput env))) then (s, [])
  else
    let newUserMessage := userMessage (userInput env) (stance env) in
    (pauseTimer
       (setUserInput ""
          (setLoading true
             (setConversations (conversations env ++ [newUserMessage]) s))),
     [Fetch (userInput env) (stance env)]).

Definition handleKeyDown (key : string) (shiftKey : bool) (s : State)
  : State * list Effect :=
  if String.eqb key "Enter" && negb shiftKey then startDebate s else (s, []).

(** The callback given to [setInterval]: the updater of [timeRemaining]
    with the sounds and the auto-submit it performs. *)
Definition tickCallback (s : State) : State * list Effect :=
  let prev := timeRemaining s in
  let newTime := JsNum.sub prev (Fin 1) in
  let sounds := if soundEnabled env then cuesAt newTime else [] in
  let '(s1, sent) :=
    if JsNum.eqb newTime (Fin 0) && JsString.truthy (JsString.trim (userInput env))
    then startDebate s
    else (s, []) in
  (setTimeRemaining newTime s1, sounds ++ sent).

(** Timer settings panel. *)
Definition onMinutesChange (value : string) (s : State) : State :=
  setTimerSettings
    (mkTimerSettings (JsString.parseIntOr value (Fin 0))
       (seconds (timerSettings env)) (active (timerSettings env))) s.

Definition onSecondsChange (value : string) (s : State) : State :=
  setTimerSettings
    (mkTimerSettings (minutes (timerSettings env))
       (JsString.parseIntOr value (Fin 0)) (active (timerSettings env))) s.

(** Round editor.  [index] is the position of the row in
    [rounds.map(...)]; a row exists only for [index < rounds.length].
    The source writes into the round object shared with the previous
    array and stores a fresh array; no closure reads the previous array
    afterwards. *)
Definition onRoundNameChange (index : nat) (value : string) (s : State) : State :=
  match rounds env !! index with
  | Some r => setRounds (<[index := mkRound value (duration r)]> (rounds env)) s
  | None => s
  end.

Definition onRoundDurationChange (index : nat) (value : string) (s : State)
  : State :=
  match rounds env !! index with
  | Some r =>
      setRounds
        (<[index := mkRound (name r) (JsString.parseIntOr value (Fin 60))]>
           (rounds env))
        s
  | None => s
  end.

Definition removeRoundClick (index : nat) (s : State) : State :=
  let newRounds := filterIndex (fun i => negb (Nat.eqb i index)) (rounds env) in
  let s1 := setRounds newRounds s in
  if Z.of_nat (length newRounds) <=? currentRound env
  then setCurrentRound (Z.of_nat (length newRounds) - 1) s1
  else s1.

(** The remove button is rendered only when [rounds.length > 1]. *)
Definition removeRound (index : nat) (s : State) : State :=
  if (1 <? Z.of_nat (length (rounds env))) then removeRoundClick index s else s.

Definition roundLabel (n : nat) : string :=
  ("Round " ++ NilZero.string_of_uint (Nat.to_uint n))%string.

Definition addRound (s : State) : State :=
  setRounds
    (rounds env ++
       [mkRound (roundLabel (length (rounds env) + 1)) (Fin 120)]) s.

(** The quick-start buttons of the empty transcript; [m] is the literal
    1, 2 or 3 of the button and [m * 60] its literal 60, 120 or 180. *)
Definition quickStart (m : Z) (s : State) : State :=
  startTimer
    (setTimeRemaining (Fin (m * 60))
       (setTimerSettings (mkTimerSettings (Fin m) (Fin 0) false) s)).

(** The send button is disabled while loading or with a blank draft. *)
Definition sendClick (s : State) : State * list Effect :=
  if loading env || negb (JsString.truthy (JsString.trim (userInput env)))
  then (s, [])
  else startDebate s.

End Render.

(** The rest of [startDebate], run when the request settles; it uses
    updater functions and so reads the current state only. *)
Definition replyOf (o : FetchOutcome) : Message.t :=
  match o with
  | NetworkError => errorMessage
  | HttpResponse _ None => errorMessage
  | HttpResponse _ (Some data) =>
      match aiResponseOf data with
      | Some v => aiMessage v
      | None => errorMessage
      end
  end.

Definition onSettled (o : FetchOutcome) (s : State) : State :=
  setLoading false (setConversations (conversations s ++ [replyOf o]) s).

(** ** The page as a machine

    A [World] is the current state, the closure of the armed interval (the
    render in which the timer effect last ran, if it called [setInterval])
    and the number of requests in flight. *)
Record World : Type := mkWorld {
  st : State;
  interval : option State;
  pending : nat
}.

Inductive QuickChoice : Type := OneMin | TwoMin | ThreeMin.

Definition quickMinutes (q : QuickChoice) : Z :=
  match q with OneMin => 1 | TwoMin => 2 | ThreeMin => 3 end.

Inductive Event : Type :=
| Tick
| TypeDraft (value : string)
| KeyDown (key : string) (shiftKey : bool)
| ClickSend
| PickStance (side : string)
| ClickStart
| ClickPause
| ClickReset
| ClickNextRound
| ClickSettings
| ClickCancel
| ClickSound
| ChangeMinutes (value : string)
| ChangeSeconds (value : string)
| ChangeRoundName (index : nat) (value : string)
| ChangeRoundDuration (index : nat) (value : string)
| ClickRemoveRound (index : nat)
| ClickAddRound
| ClickQuickStart (q : QuickChoice)
| Settled (o : FetchOutcome).

(** The dependency array of the timer effect. *)
Definition depsChanged (old new : State) : bool :=
  negb (Bool.eqb (active (timerSettings old)) (active (timerSettings new))
        && JsNum.same (timeRemaining old) (timeRemaining new)).

(** The timer effect of a render: its cleanup has cleared the previous
    interval; a new one is set when the timer is active with time left. *)
Definition timerEffect (s : State) : option State :=
  if active (timerSettings s) && JsNum.ltb (Fin 0) (timeRemaining s)
  then Some s else None.

(** Render the new state and run the timer effect if its dependencies
    changed. *)
Definition commit (w : World) (s' : State) (p : nat) : World :=
  if depsChanged (st w) s'
  then mkWorld s' (timerEffect s') p
  else mkWorld s' (interval w) p.

Fixpoint requests (out : list Effect) : nat :=
  match out with
  | [] => 0%nat
  | Fetch _ _ :: rest => S (requests rest)
  | PlayCue _ :: rest => requests rest
  end.

(** A control acts only when the page shows it; [when] is that test. *)
Definition when (shown : bool) (s : State) (r : State * list Effect)
  : State * list Effect :=
  if shown then r else (s, []).

(** What an event does to the current state, by the handler of the latest
    render ([Tick]: by the callback of the armed interval). *)
Definition handle (e : Event) (w : World) : State * list Effect :=
  let s := st w in
  let panel := showTimerSettings s in
  match e with
  | Tick =>
      match interval w with
      | Some env => tickCallback env s
      | None => (s, [])
      end
  | TypeDraft v => (setUserInput v s, [])
  | KeyDown key shift => handleKeyDown s key shift s
  | ClickSend => sendClick s s
  | PickStance side => (setStance side s, [])
  | ClickStart =>
      when (negb (active (timerSettings s)) || panel) s (startTimer s s, [])
  | ClickPause => when (active (timerSettings s)) s (pauseTimer s s, [])
  | ClickReset => (resetTimer s s, [])
  | ClickNextRound =>
      when (currentRound s <? Z.of_nat (length (rounds s)) - 1) s
        (nextRound s s, [])
  | ClickSettings => (setShowTimerSettings (negb panel) s, [])
  | ClickCancel => when panel s (setShowTimerSettings false s, [])
  | ClickSound => (setSoundEnabled (negb (soundEnabled s)) s, [])
  | ChangeMinutes v => when panel s (onMinutesChange s v s, [])
  | ChangeSeconds v => when panel s (onSecondsChange s v s, [])
  | ChangeRoundName i v => when panel s (onRoundNameChange s i v s, [])
  | ChangeRoundDuration i v => when panel s (onRoundDurationChange s i v s, [])
  | ClickRemoveRound i =>
      when (panel && bool_decide (i < length (rounds s))%nat) s
        (removeRound s i s, [])
  | ClickAddRound => when panel s (addRound s s, [])
  | ClickQuickStart q =>
      when (bool_decide (conversations s = []) ) s
        (quickStart s (quickMinutes q) s, [])
  | Settled o =>
      match pending w with
      | O => (s, [])
      | S _ => (onSettled o s, [])
      end
  end.

Definition step (e : Event) (w : World) : World * list Effect :=
  let '(s', out) := handle e w in
  let p := match e with
           | Settled _ => Nat.pred (pending w)
           | _ => (pending w + requests out)%nat
           end in
  (commit w s' p, out).

(** Events applied from left to right, with everything emitted. *)
Fixpoint run (es : list Event) (w : World) : World * list Effect :=
  match es with
  | [] => (w, [])
  | e :: rest =>
      let '(w1, out1) := step e w in
      let '(w2, out2) := run rest w1 in
      (w2, out1 ++ out2)
  end.

(** After the first render the effect has run with the timer inactive. *)
Definition initialWorld : World := mkWorld initialState None 0.

Definition reachable (w : World) : Prop :=
  exists es, fst (run es initialWorld) = w.

(** The interval is armed exactly when the timer is active with time left,
    and its closure agrees with the current state on the dependencies. *)
Definition armedOk (w : World) : Prop :=
  match interval w with
  | Some env =>
      active (timerSettings (st w)) = true /\
      JsNum.ltb (Fin 0) (timeRemaining (st w)) = true /\
      active (timerSettings env) = true /\
      timeRemaining env = timeRemaining (st w)
  | None =>
      active (timerSettings (st w)) = false \/
      JsNum.ltb (Fin 0) (timeRemaining (st w)) = false
  end.

(** The cursor designates a round of the plan. *)
Definition cursorOk (s : State) : Prop :=
  0 <= currentRound s < Z.of_nat (length (rounds s)).

(** [n] ticks in a row. *)
Definition ticks (n : nat) : list Event := repeat Tick n.

(** The sounds among the effects, in order. *)
Fixpoint cuesOf (out : list Effect) : list Cue :=
  match out with
  | [] => []
  | PlayCue c :: rest => c :: cuesOf rest
  | Fetch _ _ :: rest => cuesOf rest
  end.

(** The countdown value at which a sound is played. *)
Definition threshold (c : Cue) : Z :=
  match c with
  | thirtySecond => 30
  | fifteenSecond => 15
  | fiveSecond => 5
  | timeUp => 0
  end.

Definition isFailedReply (m : Message.t) : bool :=
  match Message.type m, Message.content m, Message.isError m with
  | ai, JsString text, Some true => String.eqb text placeholderText
  | _, _, _ => false
  end.

(** ** Rendering

    What the render computes from the state besides markup. *)

(** The decimal numeral of an integer. *)
Definition decimal (n : Z) : string := NilZero.string_of_int (Z.to_int n).

Fixpoint zeros (p : nat) : string :=
  match p with
  | O => ""
  | S p' => String "0" (zeros p')
  end.

(** [Number::toString]: the digits shown for a positive finite [x] are
    those of the [k]-digit integer [s] with [k] least such that
    [s * 10^p] rounds to [x], and among those the closest to [x].  A
    candidate [(k, s, p)] stands for [s * 10^p]. *)
Definition validDigits (x : Z) (c : Z * Z * Z) : bool :=
  let '(k, s, p) := c in
  (10 ^ (k - 1) <=? s) && (s <? 10 ^ k) && (0 <=? p) &&
  JsNum.same (JsNum.ofZ (s * 10 ^ p)) (Fin x).

Definition candidates (x D k : Z) : list (Z * Z * Z) :=
  filter (fun c => validDigits x c = true)
    [ (k, x / 10 ^ (D - k), D - k); (k, x / 10 ^ (D - k) + 1, D - k);
      (k, x / 10 ^ (D - k + 1), D - k + 1); (k, x / 10 ^ (D - k + 1) + 1, D - k + 1) ].

Definition closer (x : Z) (a b : Z * Z * Z) : Z * Z * Z :=
  let dist c := let '(_, s, p) := c in Z.abs (s * 10 ^ p - x) in
  if dist a <? dist b then a
  else if dist b <? dist a then b
  else if Z.even (snd (fst a)) then a else b.

Definition closest (x : Z) (cs : list (Z * Z * Z)) : option (Z * Z * Z) :=
  match cs with
  | [] => None
  | c :: rest => Some (fold_left (closer x) rest c)
  end.

Fixpoint shortestFrom (x D : Z) (ks : list Z) : option (Z * Z * Z) :=
  match ks with
  | [] => None
  | k :: rest =>
      match closest x (candidates x D k) with
      | Some c => Some c
      | None => shortestFrom x D rest
      end
  end.

(** Seventeen digits identify any double; the last case is not reached
    for one. *)
Definition shortest (x : Z) : Z * Z * Z :=
  let D := Z.of_nat (String.length (decimal x)) in
  match shortestFrom x D (map Z.of_nat (seq 1 17)) with
  | Some c => c
  | None => (1, x, 0)
  end.

(** Up to 21 digits the number is written out, the digits of [s] and [p]
    zeros; beyond, in exponent notation. *)
Definition renderPositive (x : Z) : string :=
  let '(k, s, p) := shortest x in
  let n := k + p in
  if n <=? 21 then (decimal s ++ zeros (Z.to_nat p))%string
  else
    match decimal s with
    | String d rest =>
        (String d (if (k =? 1)%Z then "" else String "." rest) ++ "e+" ++ decimal (n - 1)%Z)%string
    | EmptyString => EmptyString
    end.

(** [String(x)], as in a template literal or a [value] attribute. *)
Definition numberToString (x : Num) : string :=
  match x with
  | NaN => "NaN"
  | Inf false => "Infinity"
  | Inf true => "-Infinity"
  | Fin z =>
      if z =? 0 then "0"
      else if z <? 0 then String "-" (renderPositive (- z))
      else renderPositive z
  end.

Definition formatTime (seconds : Num) : string :=
  let mins := JsNum.floorDiv seconds 60 in
  let secs := JsNum.rem seconds 60 in
  (numberToString mins ++ ":" ++ (if JsNum.ltb secs (Fin 10) then "0" else "")
     ++ numberToString secs)%string.

Definition getTimerColor (s : State) : string :=
  if JsNum.leb (timeRemaining s) (Fin 5) then "text-red-600"
  else if JsNum.leb (timeRemaining s) (Fin 15) then "text-orange-500"
  else if JsNum.leb (timeRemaining s) (Fin 30) then "text-yellow-500"
  else "text-green-600".

(** [rounds.length > 0 && rounds[currentRound].name] in the header:
    [None] is the TypeError of reading [.name] of [undefined],
    [Some None] is nothing shown. *)
Definition headerRoundName (s : State) : option (option string) :=
  if 0 <? Z.of_nat (length (rounds s)) then
    match roundAt (rounds s) (currentRound s) with
    | Some r => Some (Some (name r))
    | None => None
    end
  else Some None.

(** A string ends a numeral when it is empty or starts with a character
    that is neither a digit nor a letter. *)
Definition endsNumeral (rest : string) : bool :=
  match rest with
  | EmptyString => true
  | String c _ =>
      match JsString.digitValue c with
      | Some _ => false
      | None => true
      end
  end.

(** A string starts with the letter of a hexadecimal prefix. *)
Definition startsWithX (rest : string) : bool :=
  match rest with
  | String c _ => Ascii.eqb c "x" || Ascii.eqb c "X"
  | EmptyString => false
  end.

(** The seconds of [formatTime]: [${secs < 10 ? "0" : ""}${secs}]. *)
Definition secondsField (k : Num) : string :=
  ((if JsNum.ltb k (Fin 10) then "0" else "") ++ numberToString k)%string.

(** The loading indicator is on only with a request in flight. *)
Definition loadingOk (w : World) : Prop :=
  loading (st w) = true -> (1 <= pending w)%nat.

(** Every round has a duration other than 0 and NaN. *)
Definition durationsNonZero (s : State) : Prop :=
  Forall (fun r => JsNum.truthy (duration r) = true) (rounds s).

(** Editing the plan. *)
Definition isRoundEdit (e : Event) : bool :=
  match e with
  | ChangeRoundName _ _ | ChangeRoundDuration _ _
  | ClickRemoveRound _ | ClickAddRound => true
  | _ => false
  end.

(** ** Scenarios *)

(** A round of 9007199254741020 seconds is entered, loaded by next-round
    and started. *)
Definition largeRoundRun : list Event :=
  [ClickSettings; ChangeRoundDuration 1 "9007199254741020"; ClickNextRound;
   ClickStart].

(** The scenario of the claim: settings 0 min 5 s, start, five ticks. *)
Definition fiveSecondRun : list Event :=
  [ClickSettings; ChangeMinutes "0"; ChangeSeconds "5"; ClickStart] ++ ticks 5.

(** Settings 0 min 6 s, start, then sound switched off. *)
Definition staleFlagRun : list Event :=
  [ClickSettings; ChangeMinutes "0"; ChangeSeconds "6"; ClickStart; ClickSound].

(** A draft is sent and, before the reply arrives, a second draft is typed
    and a one-second timer started. *)
Definition overlapRun : list Event :=
  [TypeDraft "A"; ClickSend; TypeDraft "B";
   ClickSettings; ChangeMinutes "0"; ChangeSeconds "1"; ClickStart].

(** The service answers 500 with a JSON error object. *)
Definition errorStatusReply : FetchOutcome :=
  HttpResponse 500 (Some (JsObject [("error", JsString "Internal Server Error")])).

(** The plan of the scenario, reached from the first render by removing
    the third round and renaming the first. *)
Definition twoRoundRun : list Event :=
  [ClickSettings; ClickRemoveRound 2; ChangeRoundName 0 "Opening"].

(** * Properties *)

Example parseInt_examples :
  JsString.parseInt "42" = Fin 42 /\
  JsString.parseInt "  -5" = Fin (-5) /\
  JsString.parseInt "3.7" = Fin 3 /\
  JsString.parseInt "0x1F" = Fin 31 /\
  JsString.parseInt "12px" = Fin 12 /\
  JsString.parseInt "" = NaN /\
  JsString.parseInt "abc" = NaN /\
  JsString.parseInt "-" = NaN /\
  JsString.parseInt "9007199254740993" = Fin 9007199254740992.
Proof. repeat split; reflexivity. Qed.

Example trim_examples :
  JsString.trim "  a b  " = "a b" /\
  JsString.trim "  " = "" /\
  JsString.trim "" = "".
Proof. repeat split; reflexivity. Qed.

Example double_examples :
  JsNum.ofZ (2 ^ 53 + 1) = Fin (2 ^ 53) /\
  JsNum.ofZ (2 ^ 53 + 3) = Fin (2 ^ 53 + 4) /\
  JsNum.sub (Fin 9007199254741020) (Fin 1) = Fin 9007199254741020 /\
  JsNum.ofZ (2 ^ 1024) = Inf false /\
  JsNum.floorDiv (Fin 180) 60 = Fin 3 /\
  JsNum.floorDiv (Fin (-10)) 60 = Fin (-1) /\
  JsNum.rem (Fin (-10)) 60 = Fin (-10) /\
  numberToString (Fin (10 ^ 21)) = "1e+21" /\
  numberToString (Fin (2 ^ 64)) = "18446744073709552000".
Proof. repeat split; vm_compute; reflexivity. Qed.

(** ** Doubles in the range of exact integers *)

Lemma roundMagnitude_small (a : Z) :
  0 <= a <= 2 ^ 53 -> JsNum.roundMagnitude a = a.
Proof.
  intros Ha. unfold JsNum.roundMagnitude.
  destruct (Z.leb_spec (Z.log2 a) 52) as [|Hn]; [reflexivity|].
  assert (Hpos : 0 < a).
  { destruct (Z.eq_dec a 0) as [->|]; [simpl in Hn; lia | lia]. }
  assert (Hge : 2 ^ 53 <= a).
  { destruct (Z.lt_ge_cases a (2 ^ 53)) as [Hlt|]; [|assumption].
    apply Z.log2_lt_pow2 in Hlt; lia. }
  replace a with (2 ^ 53) by lia. reflexivity.
Qed.

Lemma roundMagnitude_large (a : Z) :
  2 ^ 53 < a -> 2 ^ 53 <= JsNum.roundMagnitude a.
Proof.
  intros Ha. unfold JsNum.roundMagnitude.
  assert (Hn : 53 <= Z.log2 a) by (apply Z.log2_le_pow2; lia).
  destruct (Z.leb_spec (Z.log2 a) 52) as [|_]; [lia|].
  set (n := Z.log2 a) in *.
  set (unit := 2 ^ (n - 52)).
  assert (Hunit : 0 < unit) by (apply Z.pow_pos_nonneg; lia).
  assert (Ha2 : 2 ^ 52 * unit <= a).
  { unfold unit. rewrite <- Z.pow_add_r by lia.
    replace (52 + (n - 52)) with n by lia.
    apply Z.log2_spec. lia. }
  assert (Hq : 2 ^ 52 <= a / unit) by (apply Z.div_le_lower_bound; lia).
  assert (Hu2 : 2 <= unit).
  { unfold unit. change 2 with (2 ^ 1) at 1. apply Z.pow_le_mono_r; lia. }
  assert (Hm : a / unit <=
          (if a mod unit <? unit / 2 then a / unit
           else if unit / 2 <? a mod unit then a / unit + 1
           else if Z.even (a / unit) then a / unit else a / unit + 1))
    by (repeat destruct (_ : bool); lia).
  change (2 ^ 53) with (2 ^ 52 * 2). nia.
Qed.

Lemma ofZ_small (z : Z) : Z.abs z <= 2 ^ 53 -> JsNum.ofZ z = Fin z.
Proof.
  intros Hz. unfold JsNum.ofZ.
  rewrite roundMagnitude_small by lia.
  destruct (Z.leb_spec (2 ^ 1024) (Z.abs z)) as [Hbig|_].
  - assert (2 ^ 53 < 2 ^ 1024) by (apply Z.pow_lt_mono_r; lia). lia.
  - f_equal. lia.
Qed.

(** A double below [2^53] in magnitude is the rounding of itself only. *)
Lemma ofZ_inv_small (z c : Z) :
  JsNum.ofZ z = Fin c -> Z.abs c < 2 ^ 53 -> z = c.
Proof.
  intros Hz Hc.
  destruct (Z.le_gt_cases (Z.abs z) (2 ^ 53)) as [Hs|Hl].
  - rewrite ofZ_small in Hz by exact Hs. congruence.
  - exfalso. unfold JsNum.ofZ in Hz.
    pose proof (roundMagnitude_large (Z.abs z) Hl) as Hr.
    destruct (2 ^ 1024 <=? JsNum.roundMagnitude (Z.abs z)); [discriminate|].
    injection Hz as <-. nia.
Qed.

Lemma same_eq (x y : Num) : JsNum.same x y = true <-> x = y.
Proof.
  destruct x as [|a|a], y as [|b|b]; simpl; split; try done.
  - by intros ->%Bool.eqb_prop.
  - intros [= ->]. apply Bool.eqb_reflx.
  - by intros ->%Z.eqb_eq.
  - intros [= ->]. apply Z.eqb_refl.
Qed.

Lemma eqb_Fin (x : Num) (c : Z) : JsNum.eqb x (Fin c) = true <-> x = Fin c.
Proof.
  destruct x as [|a|a]; simpl; split; try done.
  - by intros ->%Z.eqb_eq.
  - intros [= ->]. apply Z.eqb_refl.
Qed.

(** Subtracting 1 is exact in the range of exact integers. *)
Lemma sub1_small (t : Z) :
  - 2 ^ 53 < t <= 2 ^ 53 -> JsNum.sub (Fin t) (Fin 1) = Fin (t - 1).
Proof.
  intros Ht. unfold JsNum.sub. simpl. rewrite ofZ_small by lia. f_equal.
Qed.

(** Only [c + 1] gives a small [c] when 1 is subtracted. *)
Lemma sub1_inv_small (x : Num) (c : Z) :
  JsNum.sub x (Fin 1) = Fin c -> Z.abs c < 2 ^ 53 -> x = Fin (c + 1).
Proof.
  intros Hx Hc. destruct x as [|b|t]; try discriminate.
  unfold JsNum.sub in Hx. simpl in Hx.
  apply ofZ_inv_small in Hx; [|exact Hc]. f_equal. lia.
Qed.

(** What is above a small number after subtracting 1 was above it before. *)
Lemma ltb_sub1 (x : Num) (a : Z) :
  Z.abs a <= 2 ^ 53 ->
  JsNum.ltb (Fin a) (JsNum.sub x (Fin 1)) = true -> JsNum.ltb (Fin a) x = true.
Proof.
  intros Ha Hlt. destruct x as [|b|t]; try done.
  simpl. apply Z.ltb_lt.
  destruct (Z.le_gt_cases t (2 ^ 53)) as [Hs|Hl]; [|lia].
  destruct (Z.le_gt_cases t (- 2 ^ 53)) as [Hneg|Hpos].
  - exfalso. unfold JsNum.sub in Hlt.
    cbn [JsNum.neg JsNum.add] in Hlt. change (Z.opp 1) with (-1) in Hlt.
    unfold JsNum.ofZ in Hlt.
    assert (Hr : 2 ^ 53 <= JsNum.roundMagnitude (Z.abs (t + -1)))
      by (apply roundMagnitude_large; lia).
    destruct (2 ^ 1024 <=? _); cbn [JsNum.ltb] in Hlt.
    + apply negb_true_iff, Z.ltb_ge in Hlt. lia.
    + apply Z.ltb_lt in Hlt.
      rewrite Z.sgn_neg in Hlt by lia. lia.
  - rewrite sub1_small in Hlt by lia. simpl in Hlt. apply Z.ltb_lt in Hlt. lia.
Qed.

(** The mantissa chosen for [n / 60] at a scale of at least 32 has the
    integer part of [n / 60]. *)
Lemma rounded_sixtieth_floor (n K : Z) :
  0 <= n -> 32 <= K ->
  let N := n * K in
  let q := N / 60 in
  let r := N mod 60 in
  let m := if 2 * r <? 60 then q
           else if 60 <? 2 * r then q + 1
           else if Z.even q then q else q + 1 in
  m / K = n / 60.
Proof.
  intros Hn HK N q r m.
  pose proof (Z.div_mod n 60 ltac:(lia)) as Hdm.
  pose proof (Z.mod_pos_bound n 60 ltac:(lia)) as Hrm.
  pose proof (Z.div_mod N 60 ltac:(lia)) as HdN.
  pose proof (Z.mod_pos_bound N 60 ltac:(lia)) as HrN.
  fold q in HdN. fold r in HdN, HrN.
  set (Q := n / 60) in *. set (R := n mod 60) in *.
  assert (HN : N = 60 * Q * K + R * K) by (unfold N; nia).
  assert (Hqlow : Q * K <= q) by nia.
  assert (Hqhigh : q < Q * K + K) by nia.
  assert (Hm : Q * K <= m < Q * K + K).
  { unfold m. destruct (2 * r <? 60) eqn:E1; [lia|].
    apply Z.ltb_ge in E1.
    assert (q + 1 < Q * K + K) by nia.
    destruct (60 <? 2 * r); [lia|]. destruct (Z.even q); lia. }
  symmetry. apply Z.div_unique with (r := m - Q * K); lia.
Qed.

Lemma floorDiv_small (d : Z) :
  0 <= d <= 2 ^ 53 -> JsNum.floorDiv (Fin d) 60 = Fin (d / 60).
Proof.
  intros Hd. unfold JsNum.floorDiv.
  destruct (Z.eqb_spec d 0) as [->|Hne]; [reflexivity|].
  replace (0 <? d) with true by (symmetry; apply Z.ltb_lt; lia).
  rewrite Z.abs_eq by lia.
  unfold JsNum.roundRatio.
  change (Z.log2 60) with 5.
  set (e0 := Z.log2 d - 5 - 52).
  assert (Hlog : 0 <= Z.log2 d <= 53).
  { split; [apply Z.log2_nonneg|].
    destruct (Z.eq_dec d (2 ^ 53)) as [->|]; [vm_compute; discriminate|].
    assert (Z.log2 d < 53) by (apply Z.log2_lt_pow2; lia). lia. }
  set (e := if d * 2 ^ Z.max 0 (- e0) / (60 * 2 ^ Z.max 0 e0) <? 2 ^ 52
            then e0 - 1 else e0).
  assert (He : e <= -5).
  { unfold e. destruct (Z.eq_dec (Z.log2 d) 53) as [H53|].
    - assert (d = 2 ^ 53).
      { destruct (Z.eq_dec d (2 ^ 53)); [assumption|].
        assert (Z.log2 d < 53) by (apply Z.log2_lt_pow2; lia). lia. }
      subst d. vm_compute. discriminate.
    - destruct (_ <? _); unfold e0; lia. }
  cbv zeta. fold e0. fold e.
  replace (Z.max 0 e) with 0 by lia.
  replace (Z.max 0 (- e)) with (- e) by lia.
  change (2 ^ 0) with 1. rewrite Z.mul_1_r.
  unfold JsNum.floorScaled.
  replace (0 <=? e) with false by (symmetry; apply Z.leb_gt; lia).
  f_equal. apply rounded_sixtieth_floor; [lia|].
  change 32 with (2 ^ 5). apply Z.pow_le_mono_r; lia.
Qed.

(** Minutes times 60 plus seconds gives back a duration that was split by
    [Math.floor(d / 60)] and [d % 60], in the range of exact integers. *)
Lemma total_of_split (d : Z) :
  0 <= d <= 2 ^ 53 ->
  totalSeconds
    (mkTimerSettings (JsNum.floorDiv (Fin d) 60) (JsNum.rem (Fin d) 60) false) =
  Fin d.
Proof.
  intros Hd. unfold totalSeconds. cbn [minutes seconds].
  rewrite floorDiv_small by exact Hd. cbn [JsNum.rem JsNum.mul].
  rewrite Z.rem_mod_nonneg by lia.
  pose proof (Z.div_mod d 60 ltac:(lia)) as Hdm.
  pose proof (Z.mod_pos_bound d 60 ltac:(lia)) as Hrm.
  assert (Hq : 0 <= d / 60) by (apply Z.div_pos; lia).
  rewrite ofZ_small by lia. cbn [JsNum.add].
  rewrite ofZ_small by lia. f_equal. lia.
Qed.

(** ** The machine keeps the interval consistent with the state *)

Lemma world_eta (w : World) : mkWorld (st w) (interval w) (pending w) = w.
Proof. by destruct w. Qed.

Lemma depsChanged_refl (s : State) : depsChanged s s = false.
Proof.
  unfold depsChanged. rewrite Bool.eqb_reflx, (proj2 (same_eq _ _) eq_refl).
  reflexivity.
Qed.

Lemma depsChanged_false (s s' : State) :
  depsChanged s s' = false ->
  active (timerSettings s) = active (timerSettings s') /\
  timeRemaining s = timeRemaining s'.
Proof.
  unfold depsChanged. intros H.
  apply negb_false_iff, andb_true_iff in H as [Ha Ht].
  split; [by apply Bool.eqb_prop | by apply same_eq].
Qed.

Lemma commit_same (w : World) : commit w (st w) (pending w) = w.
Proof. unfold commit. rewrite depsChanged_refl. apply world_eta. Qed.

Lemma st_commit (w : World) (s' : State) (p : nat) : st (commit w s' p) = s'.
Proof. unfold commit. by destruct (depsChanged (st w) s'). Qed.

Lemma timerEffect_armedOk (s : State) (p : nat) :
  armedOk (mkWorld s (timerEffect s) p).
Proof.
  unfold armedOk, timerEffect. cbn [st interval].
  destruct (active (timerSettings s)) eqn:Ha; cbn [andb]; [|auto].
  destruct (JsNum.ltb (Fin 0) (timeRemaining s)) eqn:Ht; auto.
Qed.

Lemma commit_armedOk (w : World) (s' : State) (p : nat) :
  armedOk w -> armedOk (commit w s' p).
Proof.
  intros Hw. unfold commit.
  destruct (depsChanged (st w) s') eqn:Hd.
  - apply timerEffect_armedOk.
  - apply depsChanged_false in Hd as [Ha Ht].
    unfold armedOk in *. simpl. rewrite <- Ha, <- Ht. exact Hw.
Qed.

Lemma step_armedOk (e : Event) (w : World) :
  armedOk w -> armedOk (fst (step e w)).
Proof.
  intros Hw. unfold step. destruct (handle e w) as [s' out]. simpl.
  by apply commit_armedOk.
Qed.

Lemma run_cons (e : Event) (es : list Event) (w : World) :
  run (e :: es) w =
  (fst (run es (fst (step e w))), snd (step e w) ++ snd (run es (fst (step e w)))).
Proof.
  simpl. destruct (step e w) as [w1 out1]. simpl.
  by destruct (run es w1) as [w2 out2].
Qed.

Lemma run_armedOk (es : list Event) :
  forall w, armedOk w -> armedOk (fst (run es w)).
Proof.
  induction es as [|e es IH]; intros w Hw; [exact Hw|].
  rewrite run_cons. simpl. apply IH. by apply step_armedOk.
Qed.

Lemma initialWorld_armedOk : armedOk initialWorld.
Proof. unfold armedOk. simpl. auto. Qed.

Lemma reachable_armedOk (w : World) : reachable w -> armedOk w.
Proof.
  intros [es <-]. apply run_armedOk, initialWorld_armedOk.
Qed.

Lemma reachable_run (es : list Event) : reachable (fst (run es initialWorld)).
Proof. by exists es. Qed.

Lemma step_tick_unarmed (w : World) :
  interval w = None -> step Tick w = (w, []).
Proof.
  intros Hi. unfold step, handle. rewrite Hi.
  rewrite Nat.add_0_r. by rewrite commit_same.
Qed.

Lemma timeRemaining_tickCallback (env s : State) :
  timeRemaining (fst (tickCallback env s)) = JsNum.sub (timeRemaining s) (Fin 1).
Proof.
  unfold tickCallback.
  destruct (JsNum.eqb (JsNum.sub (timeRemaining s) (Fin 1)) (Fin 0) &&
            JsString.truthy (JsString.trim (userInput env))).
  - by destruct (startDebate env s).
  - reflexivity.
Qed.

Lemma st_step_tick_armed (w : World) (env : State) :
  interval w = Some env -> st (fst (step Tick w)) = fst (tickCallback env (st w)).
Proof.
  intros Hi. unfold step, handle. rewrite Hi.
  destruct (tickCallback env (st w)) as [s' out]. simpl. apply st_commit.
Qed.

Lemma out_step_tick_armed (w : World) (env : State) :
  interval w = Some env -> snd (step Tick w) = snd (tickCallback env (st w)).
Proof.
  intros Hi. unfold step, handle. rewrite Hi.
  by destruct (tickCallback env (st w)) as [s' out].
Qed.

(** ** C1: one tick of a running timer *)

(** C1, as stated, fails for large [t]: a round of 9007199254741020
    seconds, loaded by next-round and started, is a reachable running
    state; there [t - 1] is not a double and rounds back to [t], so the
    tick leaves [timeRemaining] as it was and the interval stays armed. *)
Lemma tick_large_counterexample :
  let w := fst (run largeRoundRun initialWorld) in
  let t := 9007199254741020 in
  active (timerSettings (st w)) = true /\
  timeRemaining (st w) = Fin t /\
  is_Some (interval w) /\
  timeRemaining (st (fst (step Tick w))) = Fin t /\
  timeRemaining (st (fst (step Tick w))) <> Fin (t - 1).
Proof. vm_compute. repeat split; (by eexists) || discriminate || reflexivity. Qed.

(** C1, amended.  In every reachable state of the page with the timer
    running and [timeRemaining = t], [0 <= t <= 2^53], one tick leaves
    [timeRemaining = t - 1] when [t > 0]; when [t = 0] no interval is
    armed and the tick changes nothing and emits nothing. *)
Theorem tick_decrements (w : World) (t : Z) :
  reachable w ->
  active (timerSettings (st w)) = true ->
  timeRemaining (st w) = Fin t ->
  0 <= t <= 2 ^ 53 ->
  (0 < t -> timeRemaining (st (fst (step Tick w))) = Fin (t - 1)) /\
  (t = 0 -> step Tick w = (w, [])).
Proof.
  intros Hr Ha Ht Hge. apply reachable_armedOk in Hr.
  unfold armedOk in Hr. rewrite Ht in Hr. simpl in Hr. split.
  - intros Hpos. destruct (interval w) as [env|] eqn:Hi.
    + rewrite (st_step_tick_armed w env Hi), timeRemaining_tickCallback, Ht.
      apply sub1_small. lia.
    + destruct Hr as [Hr|Hr]; [congruence|]. apply Z.ltb_ge in Hr. lia.
  - intros H0. destruct (interval w) as [env|] eqn:Hi.
    + destruct Hr as (_ & Hr & _). apply Z.ltb_lt in Hr. lia.
    + by apply step_tick_unarmed.
Qed.

Lemma tick_decrements_witness :
  let w := fst (run [ClickStart] initialWorld) in
  timeRemaining (st w) = Fin 120 /\
  timeRemaining (st (fst (step Tick w))) = Fin 119.
Proof.
  split; [reflexivity|].
  refine (proj1 (tick_decrements _ 120 _ _ _ _) _);
    [exists [ClickStart]; reflexivity | reflexivity | reflexivity | lia | lia].
Defined.

(** ** C3: audio cues *)

Lemma cuesOf_app (a b : list Effect) : cuesOf (a ++ b) = cuesOf a ++ cuesOf b.
Proof.
  induction a as [|[c|u t] a IH]; simpl; [reflexivity | by rewrite IH | exact IH].
Qed.

Lemma threshold_small (c : Cue) : Z.abs (threshold c) < 2 ^ 53.
Proof. destruct c; simpl; lia. Qed.

(** The four tests of the callback exclude one another: a value of the
    countdown plays the sound of its threshold, or none. *)
Lemma cuesOf_cuesAt (n : Num) :
  (exists c, Fin (threshold c) = n /\ cuesOf (cuesAt n) = [c]) \/
  ((forall c, Fin (threshold c) <> n) /\ cuesOf (cuesAt n) = []).
Proof.
  unfold cuesAt.
  destruct (JsNum.eqb n (Fin 30)) eqn:H30;
    [apply eqb_Fin in H30; subst; left; by exists thirtySecond|].
  destruct (JsNum.eqb n (Fin 15)) eqn:H15;
    [apply eqb_Fin in H15; subst; left; by exists fifteenSecond|].
  destruct (JsNum.eqb n (Fin 5)) eqn:H5;
    [apply eqb_Fin in H5; subst; left; by exists fiveSecond|].
  destruct (JsNum.eqb n (Fin 0)) eqn:H0;
    [apply eqb_Fin in H0; subst; left; by exists timeUp|].
  right. split; [|reflexivity].
  intros c Hc. subst n. destruct c; simpl in *; discriminate.
Qed.

Lemma cuesOf_startDebate (env s : State) : cuesOf (snd (startDebate env s)) = [].
Proof.
  unfold startDebate.
  by destruct (negb (JsString.truthy (JsString.trim (userInput env)))).
Qed.

Lemma cuesOf_tickCallback (env s : State) :
  cuesOf (snd (tickCallback env s)) =
  if soundEnabled env
  then cuesOf (cuesAt (JsNum.sub (timeRemaining s) (Fin 1))) else [].
Proof.
  unfold tickCallback.
  destruct (JsNum.eqb (JsNum.sub (timeRemaining s) (Fin 1)) (Fin 0) &&
            JsString.truthy (JsString.trim (userInput env))).
  - pose proof (cuesOf_startDebate env s) as Hs.
    destruct (startDebate env s) as [s1 sent]. cbn [fst snd] in *.
    rewrite cuesOf_app, Hs, app_nil_r. by destruct (soundEnabled env).
  - cbn [fst snd]. rewrite cuesOf_app. cbn [cuesOf]. rewrite app_nil_r.
    by destruct (soundEnabled env).
Qed.

(** A tick plays at most one sound, and only the one whose threshold is
    the new value of the countdown. *)
Lemma cues_step_tick (w : World) :
  armedOk w ->
  cuesOf (snd (step Tick w)) = [] \/
  exists c, cuesOf (snd (step Tick w)) = [c] /\
            timeRemaining (st (fst (step Tick w))) = Fin (threshold c) /\
            timeRemaining (st w) = Fin (threshold c + 1).
Proof.
  intros Hw. destruct (interval w) as [env|] eqn:Hi.
  - rewrite (out_step_tick_armed w env Hi), (st_step_tick_armed w env Hi).
    rewrite cuesOf_tickCallback, timeRemaining_tickCallback.
    destruct (soundEnabled env); [|by left].
    destruct (cuesOf_cuesAt (JsNum.sub (timeRemaining (st w)) (Fin 1)))
      as [(c & Hc & ->)|[_ ->]]; [right | by left].
    exists c. split; [reflexivity|]. split; [by symmetry|].
    apply sub1_inv_small; [by symmetry | apply threshold_small].
  - rewrite step_tick_unarmed by exact Hi. by left.
Qed.

(** A small number below the countdown after a tick was below it before. *)
Lemma ltb_step_tick (w : World) (a : Z) :
  Z.abs a <= 2 ^ 53 ->
  JsNum.ltb (Fin a) (timeRemaining (st (fst (step Tick w)))) = true ->
  JsNum.ltb (Fin a) (timeRemaining (st w)) = true.
Proof.
  intros Ha. destruct (interval w) as [env|] eqn:Hi.
  - rewrite (st_step_tick_armed w env Hi), timeRemaining_tickCallback.
    by apply ltb_sub1.
  - by rewrite step_tick_unarmed by exact Hi.
Qed.

(** Sounds played by a run of ticks lie strictly below the countdown the
    run started from. *)
Lemma cues_ticks_below (n : nat) :
  forall w c, armedOk w ->
    In c (cuesOf (snd (run (ticks n) w))) ->
    JsNum.ltb (Fin (threshold c)) (timeRemaining (st w)) = true.
Proof.
  induction n as [|n IH]; intros w c Hw Hin; [destruct Hin|].
  change (ticks (S n)) with (Tick :: ticks n) in Hin.
  rewrite run_cons in Hin. cbn [fst snd] in Hin.
  rewrite cuesOf_app in Hin. apply in_app_or in Hin as [Hin|Hin].
  - destruct (cues_step_tick w Hw) as [E|(c' & E & _ & Hbefore)];
      rewrite E in Hin; simpl in Hin; [tauto|].
    destruct Hin as [<-|[]]. rewrite Hbefore. simpl. apply Z.ltb_lt. lia.
  - apply IH in Hin; [|by apply step_armedOk].
    apply ltb_step_tick; [|exact Hin].
    pose proof (threshold_small c). lia.
Qed.

Lemma cues_ticks_NoDup (n : nat) :
  forall w, armedOk w -> List.NoDup (cuesOf (snd (run (ticks n) w))).
Proof.
  induction n as [|n IH]; intros w Hw; [constructor|].
  change (ticks (S n)) with (Tick :: ticks n).
  rewrite run_cons. cbn [fst snd]. rewrite cuesOf_app.
  pose proof (IH _ (step_armedOk Tick w Hw)) as Hrest.
  destruct (cues_step_tick w Hw) as [E|(c & E & Hc & _)]; rewrite E; simpl;
    [exact Hrest|].
  constructor; [|exact Hrest].
  intros Hin. apply cues_ticks_below in Hin; [|by apply step_armedOk].
  rewrite Hc in Hin. simpl in Hin. apply Z.ltb_lt in Hin. lia.
Qed.

(** C3, as stated, fails twice.  On its scenario: after configuring 0m5s
    and starting, five ticks play the time-up sound only; the five-second
    sound is not played, because the countdown starts at 5 and the test
    is on the value after the decrement.  And with sound disabled a sound
    can be played: the flag the callback reads is the one of the render
    in which the timer effect last ran, so after 0m6s, start and sound
    off, the flag is off and the next tick plays the five-second
    sound. *)
Lemma cue_claim_counterexample :
  (cuesOf (snd (run fiveSecondRun initialWorld)) = [timeUp] /\
   cuesOf (snd (run fiveSecondRun initialWorld)) <> [fiveSecond; timeUp]) /\
  (let w := fst (run staleFlagRun initialWorld) in
   soundEnabled (st w) = false /\
   cuesOf (snd (step Tick w)) = [fiveSecond]).
Proof.
  split; [split; [vm_compute; reflexivity | vm_compute; discriminate]|].
  vm_compute. split; reflexivity.
Qed.

(** Starting again while the timer runs at its full duration changes
    neither dependency of the effect, so the closure and its sound flag
    stay those of the first start. *)
Example restart_keeps_captured_flag :
  let w := fst (run [ClickSettings; ChangeMinutes "0"; ChangeSeconds "31";
                     ClickStart; ClickSound; ClickSettings; ClickStart]
                  initialWorld) in
  soundEnabled (st w) = false /\
  cuesOf (snd (step Tick w)) = [thirtySecond].
Proof. vm_compute. split; reflexivity. Qed.

(** C3, amended.  For a tick of the armed interval, when the sound flag
    has the value it had in the render in which the timer effect last ran
    (the flag held by the callback is the current one): with the flag off
    nothing is played; with the flag on the tick plays exactly the sound
    whose threshold (30, 15, 5, 0) equals the countdown after the
    decrement, and nothing when there is none.  Any number of consecutive
    ticks plays no sound twice.  Configuring 0m5s, starting and ticking
    five times plays the time-up sound only. *)
Theorem cue_emission (w : World) (env : State) (n : nat) :
  reachable w ->
  interval w = Some env ->
  soundEnabled env = soundEnabled (st w) ->
  let played := cuesOf (snd (step Tick w)) in
  let newTime := JsNum.sub (timeRemaining (st w)) (Fin 1) in
  (soundEnabled (st w) = false -> played = []) /\
  (soundEnabled (st w) = true ->
     forall c, Fin (threshold c) = newTime -> played = [c]) /\
  (soundEnabled (st w) = true ->
     (forall c, Fin (threshold c) <> newTime) -> played = []) /\
  List.NoDup (cuesOf (snd (run (ticks n) w))) /\
  cuesOf (snd (run fiveSecondRun initialWorld)) = [timeUp].
Proof.
  intros Hr Hi Hs played newTime. subst played newTime.
  rewrite (out_step_tick_armed w env Hi), cuesOf_tickCallback, Hs.
  split; [by intros ->|]. split; [|split; [|split]].
  - intros -> c Hc.
    destruct (cuesOf_cuesAt (JsNum.sub (timeRemaining (st w)) (Fin 1)))
      as [(c' & Hc' & ->)|[Hno _]].
    + f_equal. rewrite <- Hc in Hc'. injection Hc' as Hc'.
      destruct c, c'; simpl in Hc'; (reflexivity || discriminate).
    + by destruct (Hno c).
  - intros -> Hno.
    destruct (cuesOf_cuesAt (JsNum.sub (timeRemaining (st w)) (Fin 1)))
      as [(c' & Hc' & _)|[_ ->]].
    + by destruct (Hno c').
    + reflexivity.
  - by apply cues_ticks_NoDup, reachable_armedOk.
  - vm_compute. reflexivity.
Qed.

Lemma cue_emission_witness :
  let w := fst (run [ClickSettings; ChangeMinutes "0"; ChangeSeconds "31";
                     ClickStart] initialWorld) in
  cuesOf (snd (step Tick w)) = [thirtySecond] /\
  List.NoDup (cuesOf (snd (run (ticks 40) w))).
Proof.
  intros w.
  assert (Hr : reachable w) by (eexists; reflexivity).
  assert (Hi : interval w = Some (st w)) by (vm_compute; reflexivity).
  pose proof (cue_emission w (st w) 40 Hr Hi eq_refl) as (_ & Hon & _ & Hnd & _).
  split; [|exact Hnd].
  apply Hon; vm_compute; reflexivity.
Defined.
(** ** C2: auto-submit at expiry *)

Lemma requests_app (a b : list Effect) :
  requests (a ++ b) = (requests a + requests b)%nat.
Proof.
  induction a as [|[c|u t] a IH]; simpl; [reflexivity | exact IH | by rewrite IH].
Qed.

Lemma requests_cuesAt (n : Num) : requests (cuesAt n) = 0%nat.
Proof.
  unfold cuesAt.
  by destruct (JsNum.eqb n (Fin 30)), (JsNum.eqb n (Fin 15)),
       (JsNum.eqb n (Fin 5)), (JsNum.eqb n (Fin 0)).
Qed.

(** A tick sends a request only when it brings the countdown to 0 and the
    draft seen by the callback is not blank, and then exactly one. *)
Lemma requests_tickCallback (env s : State) :
  requests (snd (tickCallback env s)) =
  if JsNum.eqb (JsNum.sub (timeRemaining s) (Fin 1)) (Fin 0) &&
     JsString.truthy (JsString.trim (userInput env))
  then 1%nat else 0%nat.
Proof.
  unfold tickCallback.
  assert (Hs : requests (if soundEnabled env
                         then cuesAt (JsNum.sub (timeRemaining s) (Fin 1))
                         else []) = 0%nat)
    by (destruct (soundEnabled env); [apply requests_cuesAt | reflexivity]).
  destruct (JsNum.eqb (JsNum.sub (timeRemaining s) (Fin 1)) (Fin 0)); simpl.
  - unfold startDebate.
    destruct (JsString.truthy (JsString.trim (userInput env))); simpl;
      rewrite requests_app, Hs; reflexivity.
  - rewrite requests_app, Hs. reflexivity.
Qed.

Lemma step_tick_expired (w : World) :
  armedOk w -> JsNum.ltb (Fin 0) (timeRemaining (st w)) = false ->
  step Tick w = (w, []).
Proof.
  intros Hw Ht. apply step_tick_unarmed.
  unfold armedOk in Hw. destruct (interval w); [|reflexivity].
  destruct Hw as (_ & Hw & _). congruence.
Qed.

(** Ticks after the countdown has reached 0 do nothing. *)
Lemma ticks_expired_silent (n : nat) (w : World) :
  armedOk w -> JsNum.ltb (Fin 0) (timeRemaining (st w)) = false ->
  run (ticks n) w = (w, []).
Proof.
  intros Hw Ht. induction n as [|n IH]; [reflexivity|].
  change (ticks (S n)) with (Tick :: ticks n).
  rewrite run_cons, (step_tick_expired w Hw Ht). simpl. by rewrite IH.
Qed.

Lemma requests_step_tick (w : World) :
  armedOk w ->
  requests (snd (step Tick w)) = 0%nat \/
  (requests (snd (step Tick w)) = 1%nat /\
   timeRemaining (st (fst (step Tick w))) = Fin 0).
Proof.
  intros Hw. destruct (interval w) as [env|] eqn:Hi.
  - rewrite (out_step_tick_armed w env Hi), (st_step_tick_armed w env Hi).
    rewrite requests_tickCallback, timeRemaining_tickCallback.
    destruct (JsNum.eqb (JsNum.sub (timeRemaining (st w)) (Fin 1)) (Fin 0)) eqn:E;
      simpl; [|by left].
    apply eqb_Fin in E.
    destruct (JsString.truthy (JsString.trim (userInput env))); auto.
  - rewrite step_tick_unarmed by exact Hi. by left.
Qed.

(** A run of ticks submits at most once. *)
Lemma requests_ticks_le_1 (n : nat) :
  forall w, armedOk w -> (requests (snd (run (ticks n) w)) <= 1)%nat.
Proof.
  induction n as [|n IH]; intros w Hw; [simpl; lia|].
  change (ticks (S n)) with (Tick :: ticks n).
  rewrite run_cons. simpl. rewrite requests_app.
  pose proof (step_armedOk Tick w Hw) as Hw1.
  destruct (requests_step_tick w Hw) as [->|[-> H0]].
  - apply (IH _ Hw1).
  - rewrite (ticks_expired_silent n _ Hw1) by (by rewrite H0). simpl. lia.
Qed.

(** With nothing in flight, the tick that brings the countdown to 0
    submits the draft held by its closure, once. *)
Lemma expiry_submits_captured_draft (w : World) (env : State) :
  interval w = Some env ->
  timeRemaining (st w) = Fin 1 ->
  JsString.truthy (JsString.trim (userInput env)) = true ->
  snd (step Tick w) =
    (if soundEnabled env then [PlayCue timeUp] else []) ++
    [Fetch (userInput env) (stance env)].
Proof.
  intros Hi Ht Hd. rewrite (out_step_tick_armed w env Hi).
  unfold tickCallback, startDebate. rewrite Ht, Hd. simpl.
  by destruct (soundEnabled env).
Qed.

(** C2 at the failing input.  With the reply to "A" still awaited
    ([loading], one request in flight), the tick that brings the countdown
    to 0 submits "B" all the same: a second request is sent and a second
    user message appended.  [startDebate] tests only the draft; the test
    on [loading] is on the send button alone. *)
Theorem expiry_submit_while_awaiting :
  let w := fst (run overlapRun initialWorld) in
  let w' := fst (step Tick w) in
  loading (st w) = true /\ pending w = 1%nat /\
  timeRemaining (st w) = Fin 1 /\ userInput (st w) = "B" /\
  step ClickSend w = (w, []) /\
  snd (step Tick w) = [PlayCue timeUp; Fetch "B" "pro"] /\
  pending w' = 2%nat /\
  conversations (st w') = [userMessage "A" "pro"; userMessage "B" "pro"].
Proof. vm_compute. repeat split; reflexivity. Qed.

(** The draft the callback tests and sends is the one of the render in
    which the effect last ran: a draft typed during the last second is
    neither sent nor cleared at expiry. *)
Example expiry_reads_captured_draft :
  let r := run [ClickSettings; ChangeMinutes "0"; ChangeSeconds "1"; ClickStart;
                TypeDraft "hello"; Tick] initialWorld in
  snd r = [PlayCue timeUp] /\ userInput (st (fst r)) = "hello" /\
  timeRemaining (st (fst r)) = Fin 0.
Proof. vm_compute. repeat split; reflexivity. Qed.

(** ** C4: starting the timer *)

(** C4, as stated, fails: paused at 118 s of a 2 min timer, start puts the
    countdown back to 120; started again from the settings panel while it
    runs at 119, it also reloads 120; and at 0 it starts a new run. *)
Lemma startTimer_counterexample :
  let paused := fst (run [ClickStart; Tick; Tick; ClickPause] initialWorld) in
  let running := fst (run [ClickStart; Tick; ClickSettings] initialWorld) in
  let expired :=
    fst (run [ClickSettings; ChangeMinutes "0"; ChangeSeconds "1"; ClickStart;
              Tick; ClickSettings] initialWorld) in
  (active (timerSettings (st paused)) = false /\
   timeRemaining (st paused) = Fin 118 /\
   timeRemaining (st (fst (step ClickStart paused))) = Fin 120) /\
  (active (timerSettings (st running)) = true /\
   timeRemaining (st running) = Fin 119 /\
   timeRemaining (st (fst (step ClickStart running))) = Fin 120) /\
  (timeRemaining (st expired) = Fin 0 /\
   timeRemaining (st (fst (step ClickStart expired))) = Fin 1 /\
   interval (fst (step ClickStart expired)) <> None).
Proof. vm_compute. repeat split; (reflexivity || discriminate). Qed.

(** C4, amended.  In every state, running or not and at 0 or not, start
    sets [active], reloads [timeRemaining] with the configured
    [minutes * 60 + seconds], closes the settings panel and changes
    nothing else. *)
Theorem startTimer_spec (s : State) :
  startTimer s s =
  {| userInput := userInput s;
     loading := loading s;
     stance := stance s;
     conversations := conversations s;
     showTimerSettings := false;
     timerSettings :=
       mkTimerSettings (minutes (timerSettings s)) (seconds (timerSettings s)) true;
     timeRemaining :=
       JsNum.add (JsNum.mul (minutes (timerSettings s)) (Fin 60))
         (seconds (timerSettings s));
     soundEnabled := soundEnabled s;
     currentRound := currentRound s;
     rounds := rounds s |} /\
  (timeRemaining (startTimer s s) = timeRemaining s <->
   timeRemaining s = totalSeconds (timerSettings s)).
Proof. split; [reflexivity | simpl; unfold totalSeconds; split; congruence]. Qed.

(** ** C5: the reply to a request *)

(** Each settled request appends exactly one message, clears [loading]
    and touches nothing else. *)
Lemma onSettled_spec (o : FetchOutcome) (s : State) :
  onSettled o s =
  setLoading false (setConversations (conversations s ++ [replyOf o]) s) /\
  length (conversations (onSettled o s)) = S (length (conversations s)) /\
  loading (onSettled o s) = false.
Proof.
  repeat split. simpl. rewrite length_app. simpl. lia.
Qed.

(** No request is sent when a request settles: nothing is retried. *)
Lemma settled_sends_nothing (o : FetchOutcome) (w : World) :
  snd (step (Settled o) w) = [].
Proof. unfold step, handle. by destruct (pending w). Qed.

(** A rejected [fetch], a body that is not JSON and a body that is the
    JSON [null] end in the placeholder reply. *)
Lemma thrown_call_failed_reply (status : Z) :
  replyOf NetworkError = errorMessage /\
  replyOf (HttpResponse status None) = errorMessage /\
  replyOf (HttpResponse status (Some JsNull)) = errorMessage /\
  isFailedReply errorMessage = true.
Proof. repeat split. Qed.

(** A JSON body is taken as a reply whatever the status. *)
Lemma json_body_reply (status : Z) (fields : list (string * JsValue)) :
  replyOf (HttpResponse status (Some (JsObject fields))) =
  aiMessage (lastField "aiResponse" fields JsUndefined) /\
  isFailedReply (replyOf (HttpResponse status (Some (JsObject fields)))) = false.
Proof.
  split; [reflexivity|]. unfold isFailedReply. simpl.
  by destruct (lastField "aiResponse" fields JsUndefined).
Qed.

(** C5 at the failing input.  A reply with status 500 and a JSON body
    without [aiResponse] raises nothing in [startDebate]: the status is
    never read, and the message appended is an ordinary reply whose
    content is [undefined], not the placeholder. *)
Theorem error_status_not_failed_reply :
  let w := fst (run [TypeDraft "Tax cuts help growth"; ClickSend] initialWorld) in
  let w' := fst (step (Settled errorStatusReply) w) in
  loading (st w) = true /\ pending w = 1%nat /\
  conversations (st w') = conversations (st w) ++ [aiMessage JsUndefined] /\
  existsb isFailedReply (conversations (st w')) = false /\
  loading (st w') = false /\ pending w' = 0%nat.
Proof. vm_compute. repeat split; reflexivity. Qed.

(** The scenario of the specification: submit while idle, then the call
    fails on the network. *)
Example submit_then_network_error :
  let w := fst (run [TypeDraft "Tax cuts help growth"; ClickSend] initialWorld) in
  let w' := fst (step (Settled NetworkError) w) in
  conversations (st w) = [userMessage "Tax cuts help growth" "pro"] /\
  loading (st w) = true /\
  conversations (st w') =
    [userMessage "Tax cuts help growth" "pro"; errorMessage] /\
  loading (st w') = false.
Proof. vm_compute. repeat split; reflexivity. Qed.

(** ** C6: minutes and seconds of the timer settings *)

(** [parseInt(v) || d] is [d] when [v] has no number or parses to 0, and
    otherwise what [parseInt] reads. *)
Lemma parseIntOr_spec (value : string) (d : Num) :
  (JsString.parseInt value = NaN -> JsString.parseIntOr value d = d) /\
  (JsString.parseInt value = Fin 0 -> JsString.parseIntOr value d = d) /\
  (JsNum.truthy (JsString.parseInt value) = true ->
   JsString.parseIntOr value d = JsString.parseInt value).
Proof.
  unfold JsString.parseIntOr. repeat split.
  - by intros ->.
  - by intros ->.
  - by intros ->.
Qed.

(** C6 at the failing input.  The minutes field declares [min="0"], but
    its handler stores whatever [parseInt] reads: typing -5 stores -5,
    start and reset then load a countdown of -300 seconds, shown as
    "-5:00", and no interval is armed.  Only an input without a number is
    replaced by 0. *)
Theorem negative_minutes_stored :
  let w := fst (run [ClickSettings; ChangeMinutes "-5"] initialWorld) in
  minutes (timerSettings (st w)) = Fin (-5) /\
  timeRemaining (st (fst (step ClickStart w))) = Fin (-300) /\
  timeRemaining (st (fst (step ClickReset w))) = Fin (-300) /\
  interval (fst (step ClickStart w)) = None /\
  formatTime (Fin (-300)) = "-5:00" /\
  JsString.parseIntOr "abc" (Fin 0) = Fin 0.
Proof. vm_compute. repeat split; reflexivity. Qed.

(** ** C7: removing a round *)

Lemma filterIndexFrom_all {A : Type} (keep : nat -> bool) (l : list A) :
  forall off, (forall i, (off <= i)%nat -> keep i = true) ->
              filterIndexFrom keep off l = l.
Proof.
  induction l as [|x l IH]; intros off Hk; [reflexivity|].
  simpl. rewrite (Hk off) by lia. f_equal.
  apply IH. intros i Hi. apply Hk. lia.
Qed.

Lemma filterIndexFrom_delete {A : Type} (l : list A) :
  forall off k,
    filterIndexFrom (fun i => negb (Nat.eqb i (off + k))) off l = delete k l.
Proof.
  induction l as [|x l IH]; intros off k; [reflexivity|].
  simpl. destruct k as [|k].
  - rewrite Nat.add_0_r, Nat.eqb_refl. simpl.
    apply filterIndexFrom_all. intros i Hi.
    apply negb_true_iff, Nat.eqb_neq. lia.
  - replace (Nat.eqb off (off + S k)) with false
      by (symmetry; apply Nat.eqb_neq; lia).
    simpl. f_equal.
    replace (off + S k)%nat with (S off + k)%nat by lia. apply IH.
Qed.

(** Filtering out one index deletes the element at that index. *)
Lemma filterIndex_delete {A : Type} (index : nat) (l : list A) :
  filterIndex (fun i => negb (Nat.eqb i index)) l = delete index l.
Proof. apply (filterIndexFrom_delete l 0 index). Qed.

(** *** The cursor stays in bounds on the page *)

Lemma startDebate_plan (env s : State) :
  rounds (fst (startDebate env s)) = rounds s /\
  currentRound (fst (startDebate env s)) = currentRound s.
Proof.
  unfold startDebate.
  by destruct (negb (JsString.truthy (JsString.trim (userInput env)))).
Qed.

Lemma tickCallback_plan (env s : State) :
  rounds (fst (tickCallback env s)) = rounds s /\
  currentRound (fst (tickCallback env s)) = currentRound s.
Proof.
  unfold tickCallback.
  destruct (JsNum.eqb (JsNum.sub (timeRemaining s) (Fin 1)) (Fin 0) &&
            JsString.truthy (JsString.trim (userInput env))); [|by split].
  pose proof (startDebate_plan env s) as Hp.
  by destruct (startDebate env s).
Qed.

Lemma removeRound_cursorOk (s : State) (index : nat) :
  (index < length (rounds s))%nat -> cursorOk s -> cursorOk (removeRound s index s).
Proof.
  unfold cursorOk, removeRound, removeRoundClick. intros Hi Hc.
  rewrite filterIndex_delete.
  assert (Hlen : length (delete index (rounds s)) = (length (rounds s) - 1)%nat)
    by (apply length_delete, lookup_lt_is_Some_2, Hi).
  destruct (1 <? Z.of_nat (length (rounds s))) eqn:Hg; [|exact Hc].
  apply Z.ltb_lt in Hg.
  destruct (Z.of_nat (length (delete index (rounds s))) <=? currentRound s) eqn:Hb;
    simpl; rewrite Hlen.
  - lia.
  - apply Z.leb_gt in Hb. rewrite Hlen in Hb. lia.
Qed.

Lemma handle_cursorOk (e : Event) (w : World) :
  cursorOk (st w) -> cursorOk (fst (handle e w)).
Proof.
  intros Hc. unfold cursorOk in *.
  destruct e; unfold handle, when; simpl; try exact Hc.
  - destruct (interval w) as [env|]; [|exact Hc].
    by destruct (tickCallback_plan env (st w)) as [-> ->].
  - unfold handleKeyDown. destruct (_ && _); [|exact Hc].
    by destruct (startDebate_plan (st w) (st w)) as [-> ->].
  - unfold sendClick. destruct (_ || _); [exact Hc|].
    by destruct (startDebate_plan (st w) (st w)) as [-> ->].
  - by destruct (_ || _).
  - by destruct (active _).
  - destruct (currentRound (st w) <? Z.of_nat (length (rounds (st w))) - 1) eqn:Hlt;
      [|exact Hc].
    unfold nextRound. rewrite Hlt. apply Z.ltb_lt in Hlt.
    destruct (roundAt _ _); simpl; lia.
  - by destruct (showTimerSettings _).
  - by destruct (showTimerSettings _).
  - by destruct (showTimerSettings _).
  - destruct (showTimerSettings _); [|exact Hc].
    unfold onRoundNameChange. destruct (rounds (st w) !! index); [|exact Hc].
    simpl. by rewrite length_insert.
  - destruct (showTimerSettings _); [|exact Hc].
    unfold onRoundDurationChange. destruct (rounds (st w) !! index); [|exact Hc].
    simpl. by rewrite length_insert.
  - destruct (showTimerSettings _); simpl; [|exact Hc].
    case_bool_decide; simpl; [|exact Hc].
    by apply removeRound_cursorOk.
  - destruct (showTimerSettings _); [|exact Hc].
    simpl. rewrite length_app. simpl. lia.
  - by case_bool_decide.
  - by destruct (pending w).
Qed.

Lemma run_cursorOk (es : list Event) :
  forall w, cursorOk (st w) -> cursorOk (st (fst (run es w))).
Proof.
  induction es as [|e es IH]; intros w Hc; [exact Hc|].
  rewrite run_cons. simpl. apply IH.
  pose proof (handle_cursorOk e w Hc) as Hh.
  unfold step. destruct (handle e w) as [s' out]. simpl in *.
  by rewrite st_commit.
Qed.

(** In every state the page can reach, [0 <= currentRound < rounds.length]. *)
Lemma reachable_cursorOk (w : World) : reachable w -> cursorOk (st w).
Proof.
  intros [es <-]. apply run_cursorOk. unfold cursorOk. simpl. lia.
Qed.

(** C7.  With the cursor in bounds and [index] a row of the editor:
    on a plan of one round the remove control is absent and the state is
    unchanged; on a longer plan exactly the round at [index] is removed
    and the cursor, when it would be out of bounds, becomes [len - 1]; in
    both cases the cursor is in bounds afterwards. *)
Theorem removeRound_spec (s : State) (index : nat) :
  (index < length (rounds s))%nat ->
  0 <= currentRound s < Z.of_nat (length (rounds s)) ->
  let s' := removeRound s index s in
  let len' := Z.of_nat (length (rounds s')) in
  (length (rounds s) = 1%nat -> s' = s) /\
  ((1 < length (rounds s))%nat ->
     rounds s' = take index (rounds s) ++ drop (S index) (rounds s) /\
     length (rounds s') = (length (rounds s) - 1)%nat /\
     (len' <= currentRound s -> currentRound s' = len' - 1) /\
     (currentRound s < len' -> currentRound s' = currentRound s)) /\
  0 <= currentRound s' < len'.
Proof.
  intros Hi Hc. unfold removeRound, removeRoundClick.
  rewrite filterIndex_delete.
  assert (Hlen : length (delete index (rounds s)) = (length (rounds s) - 1)%nat)
    by (apply length_delete, lookup_lt_is_Some_2, Hi).
  destruct (1 <? Z.of_nat (length (rounds s))) eqn:Hg.
  - apply Z.ltb_lt in Hg.
    destruct (Z.of_nat (length (delete index (rounds s))) <=? currentRound s) eqn:Hb;
      simpl; rewrite ?Hlen.
    + apply Z.leb_le in Hb. rewrite Hlen in Hb.
      repeat split; try lia; intros; try lia.
      apply delete_take_drop.
    + apply Z.leb_gt in Hb. rewrite Hlen in Hb.
      repeat split; try lia; intros; try lia.
      apply delete_take_drop.
  - apply Z.ltb_ge in Hg. simpl. repeat split; try lia; intros; lia.
Qed.

Lemma removeRound_spec_witness :
  let s := setCurrentRound 2 initialState in
  let s' := removeRound s 1 s in
  rounds s' =
    [mkRound "Opening Statement" (Fin 120); mkRound "Closing Statement" (Fin 60)] /\
  currentRound s' = 1 /\
  0 <= currentRound s' < Z.of_nat (length (rounds s')).
Proof.
  intros s s'.
  assert (Hi : (1 < length (rounds s))%nat) by (simpl; lia).
  assert (Hc : 0 <= currentRound s < Z.of_nat (length (rounds s))) by (simpl; lia).
  destruct (removeRound_spec s 1 Hi Hc) as (_ & Hlong & Hinv).
  destruct (Hlong ltac:(simpl; lia)) as (Hr & _ & Hclamp & _).
  split; [exact Hr|]. split; [|exact Hinv].
  apply Hclamp. simpl. lia.
Defined.

(** ** C8: durations of rounds *)

(** C8 at the failing input.  The duration field declares [min="5"], but
    its handler stores whatever [parseInt] reads: typing 3 for the second
    round stores a duration of 3 seconds, which next-round loads into the
    timer.  An input without a number, or 0, is replaced by 60, and an
    added round has 120 seconds. *)
Theorem short_duration_stored :
  let w := fst (run [ClickSettings; ChangeRoundDuration 1 "3"] initialWorld) in
  rounds (st w) !! 1%nat = Some (mkRound "Rebuttal" (Fin 3)) /\
  timeRemaining (st (fst (step ClickNextRound w))) = Fin 3 /\
  JsString.parseIntOr "abc" (Fin 60) = Fin 60 /\
  JsString.parseIntOr "0" (Fin 60) = Fin 60 /\
  rounds (st (fst (step ClickAddRound w))) !! 3%nat =
    Some (mkRound "Round 4" (Fin 120)).
Proof. vm_compute. repeat split; reflexivity. Qed.

(** ** C9: advancing to the next round *)

(** When the cursor is not at the last round, next-round loads the round
    after it, paused. *)
Lemma nextRound_loads (s : State) (r : RoundStructure) :
  currentRound s < Z.of_nat (length (rounds s)) - 1 ->
  roundAt (rounds s) (currentRound s + 1) = Some r ->
  nextRound s s =
    setTimeRemaining (duration r)
      (setTimerSettings
         (mkTimerSettings (JsNum.floorDiv (duration r) 60)
            (JsNum.rem (duration r) 60) false)
         (setCurrentRound (currentRound s + 1) s)).
Proof.
  intros Hc Hr. unfold nextRound.
  apply Z.ltb_lt in Hc. by rewrite Hc, Hr.
Qed.

Lemma nextRound_last (s : State) :
  Z.of_nat (length (rounds s)) - 1 <= currentRound s -> nextRound s s = s.
Proof.
  intros Hc. unfold nextRound. apply Z.ltb_ge in Hc. by rewrite Hc.
Qed.

(** A state whose timer is inactive has no armed interval after commit. *)
Lemma commit_inactive (w : World) (s' : State) (p : nat) :
  armedOk w -> active (timerSettings s') = false ->
  interval (commit w s' p) = None.
Proof.
  intros Hw Ha. pose proof (commit_armedOk w s' p Hw) as Hok.
  unfold armedOk in Hok. rewrite st_commit in Hok.
  destruct (interval (commit w s' p)); [|reflexivity].
  destruct Hok as [Hon _]. congruence.
Qed.

(** C9.  On the page with the plan Opening 120 s, Rebuttal 180 s and the
    cursor at 0, next-round moves the cursor to 1, sets the timer settings
    to 3 min 0 s inactive and the countdown to 180, changes nothing else,
    and leaves no interval armed.  In general the round after the cursor
    is loaded in this way (the settings add up to its duration when that
    is an integer from 0 to [2^53]), and with the cursor at the last
    round next-round changes nothing. *)
Theorem nextRound_spec (w : World) (r : RoundStructure) :
  reachable w ->
  rounds (st w) = [mkRound "Opening" (Fin 120); mkRound "Rebuttal" (Fin 180)] ->
  currentRound (st w) = 0 ->
  (st (fst (step ClickNextRound w)) =
     setTimeRemaining (Fin 180)
       (setTimerSettings (mkTimerSettings (Fin 3) (Fin 0) false)
          (setCurrentRound 1 (st w))) /\
   interval (fst (step ClickNextRound w)) = None /\
   snd (step ClickNextRound w) = []) /\
  (forall s : State,
     currentRound s < Z.of_nat (length (rounds s)) - 1 ->
     roundAt (rounds s) (currentRound s + 1) = Some r ->
     currentRound (nextRound s s) = currentRound s + 1 /\
     timeRemaining (nextRound s s) = duration r /\
     active (timerSettings (nextRound s s)) = false /\
     (forall d, duration r = Fin d -> 0 <= d <= 2 ^ 53 ->
        totalSeconds (timerSettings (nextRound s s)) = duration r)) /\
  (forall s : State,
     Z.of_nat (length (rounds s)) - 1 <= currentRound s ->
     nextRound s s = s /\
     forall w0, st w0 = s -> step ClickNextRound w0 = (w0, [])).
Proof.
  intros Hr Hp Hc. apply reachable_armedOk in Hr. split; [|split].
  - assert (Hn : handle ClickNextRound w =
       (setTimeRemaining (Fin 180)
          (setTimerSettings (mkTimerSettings (Fin 3) (Fin 0) false)
             (setCurrentRound 1 (st w))), [])).
    { unfold handle, when.
      rewrite (nextRound_loads (st w) (mkRound "Rebuttal" (Fin 180)));
        rewrite Hp, Hc; reflexivity. }
    unfold step. rewrite Hn. simpl.
    split; [apply st_commit|]. split; [|reflexivity].
    by apply commit_inactive.
  - intros s Hlt Hround. rewrite (nextRound_loads s r Hlt Hround).
    cbn [currentRound timeRemaining timerSettings active setTimeRemaining
         setTimerSettings setCurrentRound].
    repeat split. intros d Hd Hrange. rewrite Hd. by apply total_of_split.
  - intros s Hge. split; [by apply nextRound_last|].
    intros w0 <-. unfold step, handle, when.
    apply Z.ltb_ge in Hge. rewrite Hge.
    rewrite Nat.add_0_r. by rewrite commit_same.
Qed.

Lemma nextRound_spec_witness :
  let w := fst (run twoRoundRun initialWorld) in
  let w' := fst (step ClickNextRound w) in
  currentRound (st w') = 1 /\ timeRemaining (st w') = Fin 180 /\
  timerSettings (st w') = mkTimerSettings (Fin 3) (Fin 0) false /\
  interval w' = None /\
  step ClickNextRound w' = (w', []).
Proof.
  intros w w'.
  assert (Hr : reachable w) by (exists twoRoundRun; reflexivity).
  assert (Hp : rounds (st w) =
               [mkRound "Opening" (Fin 120); mkRound "Rebuttal" (Fin 180)])
    by (vm_compute; reflexivity).
  assert (Hc : currentRound (st w) = 0) by (vm_compute; reflexivity).
  destruct (nextRound_spec w (mkRound "Rebuttal" (Fin 180)) Hr Hp Hc)
    as ((Hst & Hint & _) & _ & Hlast).
  fold w' in Hst, Hint.
  split; [by rewrite Hst|]. split; [by rewrite Hst|].
  split; [by rewrite Hst|]. split; [exact Hint|].
  apply (Hlast (st w')); [|reflexivity].
  apply Z.leb_le. vm_compute. reflexivity.
Defined.

(** ** C10: blank drafts *)

Lemma startDebate_blank (env s : State) :
  JsString.trim (userInput env) = "" -> startDebate env s = (s, []).
Proof. intros Hb. unfold startDebate. by rewrite Hb. Qed.

(** C10.  When the draft trims to the empty string, the send button, the
    Enter key and [startDebate] itself leave the page as it is and emit
    nothing: no message is added, no request is sent, [loading] keeps its
    value and no error reply appears; a draft of two spaces is such a
    draft. *)
Theorem blank_draft_noop (w : World) :
  JsString.trim (userInput (st w)) = "" ->
  step ClickSend w = (w, []) /\
  step (KeyDown "Enter" false) w = (w, []) /\
  (forall s, startDebate (st w) s = (s, [])) /\
  length (conversations (st (fst (step ClickSend w)))) =
    length (conversations (st w)) /\
  requests (snd (step ClickSend w)) = 0%nat /\
  loading (st (fst (step ClickSend w))) = loading (st w) /\
  JsString.trim "  " = "".
Proof.
  intros Hb.
  assert (Hsend : step ClickSend w = (w, [])).
  { unfold step, handle, sendClick. rewrite Hb. simpl.
    rewrite orb_true_r, Nat.add_0_r. by rewrite commit_same. }
  assert (Hkey : step (KeyDown "Enter" false) w = (w, [])).
  { unfold step, handle, handleKeyDown. simpl.
    rewrite (startDebate_blank _ _ Hb), Nat.add_0_r. by rewrite commit_same. }
  rewrite Hsend. simpl.
  split; [reflexivity|]. split; [exact Hkey|].
  split; [intros s; by apply startDebate_blank|].
  repeat split.
Qed.

Lemma blank_draft_noop_witness :
  let w := fst (run [TypeDraft "  "] initialWorld) in
  userInput (st w) = "  " /\
  step ClickSend w = (w, []) /\
  step (KeyDown "Enter" false) w = (w, []).
Proof.
  intros w.
  destruct (blank_draft_noop w) as (Hsend & Hkey & _); [reflexivity|].
  repeat split; assumption.
Defined.

(** * Further properties *)

(** ** Numerals: what is displayed parses back *)

Lemma parseDigits_step (c : ascii) (r : string) (v : Z) (acc : option Z) :
  JsString.digitValue c = Some v -> (v <? 10) = true ->
  JsString.parseDigits 10 (String c r) acc =
  JsString.parseDigits 10 r
    (Some (match acc with Some a => a * 10 + v | None => v end)).
Proof. intros Hc Hv. simpl. by rewrite Hc, Hv. Qed.

Lemma parseDigits_stop (rest : string) (acc : option Z) :
  endsNumeral rest = true -> JsString.parseDigits 10 rest acc = acc.
Proof.
  destruct rest as [|c r]; [reflexivity|]. simpl.
  by destruct (JsString.digitValue c).
Qed.

Ltac digit_step :=
  cbn [NilEmpty.string_of_uint String.append Pos.of_uint_acc Pos.of_uint];
  erewrite parseDigits_step by (vm_compute; reflexivity).

Lemma parseDigits_uint_acc (d : Decimal.uint) (rest : string) :
  forall acc : positive,
    JsString.parseDigits 10 (NilEmpty.string_of_uint d ++ rest)%string (Some (Z.pos acc)) =
    JsString.parseDigits 10 rest (Some (Z.pos (Pos.of_uint_acc d acc))).
Proof.
  induction d as [|d IH|d IH|d IH|d IH|d IH|d IH|d IH|d IH|d IH|d IH];
    intros acc; [reflexivity|..];
    digit_step; rewrite <- IH; do 2 f_equal; lia.
Qed.

Lemma parseDigits_uint (d : Decimal.uint) (rest : string) :
  JsString.parseDigits 10 (NilEmpty.string_of_uint d ++ rest)%string (Some 0) =
  JsString.parseDigits 10 rest (Some (Z.of_N (Pos.of_uint d))).
Proof.
  induction d as [|d IH|d IH|d IH|d IH|d IH|d IH|d IH|d IH|d IH|d IH];
    [reflexivity | digit_step; exact IH |..];
    digit_step; apply (parseDigits_uint_acc d rest).
Qed.

Lemma parseDigits_uint_start (d : Decimal.uint) (rest : string) :
  d <> Decimal.Nil ->
  JsString.parseDigits 10 (NilEmpty.string_of_uint d ++ rest)%string None =
  JsString.parseDigits 10 (NilEmpty.string_of_uint d ++ rest)%string (Some 0).
Proof.
  intros Hd. destruct d; [congruence|..]; digit_step; symmetry; digit_step; reflexivity.
Qed.

(** A run of zeros multiplies what was read by a power of ten. *)
Lemma parseDigits_zeros (p : nat) (rest : string) :
  endsNumeral rest = true ->
  forall v, JsString.parseDigits 10 (zeros p ++ rest)%string (Some v) =
            Some (v * 10 ^ Z.of_nat p).
Proof.
  intros Hr. induction p as [|p IH]; intros v.
  - cbn [zeros String.append]. rewrite parseDigits_stop by exact Hr.
    f_equal. change (10 ^ Z.of_nat 0) with 1. lia.
  - cbn [zeros String.append].
    erewrite parseDigits_step by (vm_compute; reflexivity).
    rewrite IH. f_equal. rewrite Nat2Z.inj_succ, Z.pow_succ_r by lia. lia.
Qed.

Lemma stripHexPrefix_zero (c : ascii) (r : string) :
  Ascii.eqb c "x" || Ascii.eqb c "X" = false ->
  JsString.stripHexPrefix (String "0" (String c r)) = (10, String "0" (String c r)).
Proof.
  destruct c as [[] [] [] [] [] [] [] []]; intros H; try reflexivity;
    vm_compute in H; discriminate H.
Qed.

Lemma stripHexPrefix_uint (d : Decimal.uint) (rest : string) :
  d <> Decimal.Nil -> startsWithX rest = false ->
  JsString.stripHexPrefix (NilEmpty.string_of_uint d ++ rest)%string =
  (10, (NilEmpty.string_of_uint d ++ rest)%string).
Proof.
  intros Hd Hr. destruct d as [|d|d|d|d|d|d|d|d|d|d]; try reflexivity; [congruence|].
  destruct d; try reflexivity.
  cbn [NilEmpty.string_of_uint String.append].
  destruct rest as [|c r]; [reflexivity|].
  by apply stripHexPrefix_zero.
Qed.

Lemma startsWithX_tail (p : nat) (rest : string) :
  endsNumeral rest = true -> startsWithX (zeros p ++ rest)%string = false.
Proof.
  intros Hr. destruct p as [|p]; [|reflexivity].
  cbn [zeros String.append]. destruct rest as [|c r]; [reflexivity|].
  simpl in *. destruct c as [[] [] [] [] [] [] [] []]; try reflexivity;
    vm_compute in Hr; discriminate Hr.
Qed.

(** A numeral, a run of zeros and a tail that ends the numeral are read
    by [parseInt] as the numeral times a power of ten, with its sign. *)
Lemma parseIntExact_uint (d : Decimal.uint) (p : nat) (rest : string) :
  d <> Decimal.Nil -> endsNumeral rest = true ->
  let v := Z.of_N (Pos.of_uint d) * 10 ^ Z.of_nat p in
  JsString.parseIntExact (NilEmpty.string_of_uint d ++ zeros p ++ rest)%string =
    Some v /\
  JsString.parseIntExact
    (String "-" (NilEmpty.string_of_uint d ++ zeros p ++ rest))%string =
    Some (- v).
Proof.
  intros Hd Hr v.
  set (tail := (zeros p ++ rest)%string).
  assert (Hp : JsString.parseDigits 10 (NilEmpty.string_of_uint d ++ tail)%string None =
               Some v).
  { rewrite parseDigits_uint_start, parseDigits_uint by exact Hd.
    by apply parseDigits_zeros. }
  pose proof (stripHexPrefix_uint d tail Hd (startsWithX_tail p rest Hr)) as Hx.
  split.
  - unfold JsString.parseIntExact.
    replace (JsString.trimStart (NilEmpty.string_of_uint d ++ tail)%string)
      with (NilEmpty.string_of_uint d ++ tail)%string
      by (destruct d; [congruence|..]; reflexivity).
    replace (JsString.stripSign (NilEmpty.string_of_uint d ++ tail)%string)
      with (1, (NilEmpty.string_of_uint d ++ tail)%string)
      by (destruct d; [congruence|..]; reflexivity).
    rewrite Hx, Hp. f_equal; lia.
  - unfold JsString.parseIntExact.
    change (JsString.trimStart (String "-" (NilEmpty.string_of_uint d ++ tail)))
      with (String "-" (NilEmpty.string_of_uint d ++ tail)).
    change (JsString.stripSign (String "-" (NilEmpty.string_of_uint d ++ tail)))
      with (-1, (NilEmpty.string_of_uint d ++ tail)%string).
    cbv beta iota zeta. rewrite Hx, Hp. f_equal; lia.
Qed.

Lemma parseIntExact_decimal (s : Z) (p : nat) (rest : string) :
  0 <= s -> endsNumeral rest = true ->
  JsString.parseIntExact (decimal s ++ zeros p ++ rest)%string =
    Some (s * 10 ^ Z.of_nat p) /\
  JsString.parseIntExact (String "-" (decimal s ++ zeros p ++ rest))%string =
    Some (- (s * 10 ^ Z.of_nat p)).
Proof.
  intros Hs Hr. unfold decimal. destruct s as [|q|q]; [| |lia]; simpl Z.to_int.
  - apply (parseIntExact_uint (Decimal.D0 Decimal.Nil) p rest); [discriminate | exact Hr].
  - pose proof (Unsigned.to_uint_nonnil q) as Hn.
    cbn [NilZero.string_of_int].
    replace (NilZero.string_of_uint (Pos.to_uint q))
      with (NilEmpty.string_of_uint (Pos.to_uint q))
      by (unfold NilZero.string_of_uint; destruct (Pos.to_uint q); congruence).
    pose proof (parseIntExact_uint _ p rest Hn Hr) as H.
    cbv zeta in H. by rewrite DecimalPos.Unsigned.of_to in H.
Qed.

Lemma append_inv_head (p a b : string) : (p ++ a = p ++ b)%string -> a = b.
Proof. induction p as [|c p IH]; simpl; [auto|]. intros H. injection H. exact IH. Qed.

Lemma append_empty_r (a : string) : (a ++ "")%string = a.
Proof. induction a as [|c a IH]; simpl; [reflexivity | by rewrite IH]. Qed.

Lemma append_assoc (a b c : string) : ((a ++ b) ++ c = a ++ (b ++ c))%string.
Proof. induction a as [|x a IH]; simpl; [reflexivity | by rewrite IH]. Qed.

(** *** The digits chosen by [Number::toString] *)

Lemma closer_cases (x : Z) (a b : Z * Z * Z) : closer x a b = a \/ closer x a b = b.
Proof.
  unfold closer. destruct (_ <? _); [by left|]. destruct (_ <? _); [by right|].
  destruct (Z.even _); auto.
Qed.

Lemma fold_closer_elem (x : Z) (cs : list (Z * Z * Z)) :
  forall c, fold_left (closer x) cs c ∈ c :: cs.
Proof.
  induction cs as [|c' cs IH]; intros c; simpl; [by left|].
  specialize (IH (closer x c c')).
  apply elem_of_cons in IH as [->|Hin].
  - destruct (closer_cases x c c') as [->| ->]; [left | right; left].
  - right. by right.
Qed.

Lemma closest_elem (x : Z) (cs : list (Z * Z * Z)) (c : Z * Z * Z) :
  closest x cs = Some c -> c ∈ cs.
Proof.
  destruct cs as [|c0 cs]; [discriminate|]. intros [= <-]. apply fold_closer_elem.
Qed.

Lemma shortestFrom_valid (x D : Z) (ks : list Z) (c : Z * Z * Z) :
  shortestFrom x D ks = Some c -> validDigits x c = true.
Proof.
  induction ks as [|k ks IH]; [discriminate|]. simpl.
  destruct (closest x (candidates x D k)) as [c'|] eqn:E; [|exact IH].
  intros [= <-]. apply closest_elem in E. unfold candidates in E.
  by apply list_elem_of_filter in E as [E _].
Qed.

(** In the range of exact integers the digits chosen stand for the number
    itself, written with at most 21 digits. *)
Lemma shortest_small (x : Z) :
  0 < x < 2 ^ 53 ->
  let '(k, s, p) := shortest x in
  s * 10 ^ p = x /\ 0 < s /\ 0 <= p /\ k + p <= 21.
Proof.
  intros Hx. unfold shortest.
  destruct (shortestFrom x _ _) as [[[k s] p]|] eqn:E.
  - apply shortestFrom_valid in E. unfold validDigits in E.
    apply andb_true_iff in E as [E Hsame].
    apply andb_true_iff in E as [E Hp]. apply andb_true_iff in E as [Hlow Hhigh].
    apply Z.leb_le in Hlow, Hp. apply Z.ltb_lt in Hhigh.
    apply same_eq, ofZ_inv_small in Hsame; [|lia].
    assert (Hpow : 0 < 10 ^ p) by (apply Z.pow_pos_nonneg; lia).
    assert (Hs : 0 < s) by nia.
    assert (Hk : 1 <= k).
    { destruct (Z.le_gt_cases 1 k); [assumption|]. exfalso.
      destruct (Z.eq_dec k 0) as [->|]; [change (10 ^ 0) with 1 in Hhigh; lia|].
      rewrite Z.pow_neg_r in Hhigh by lia. lia. }
    repeat split; try assumption.
    assert (Hlt : 10 ^ (k - 1 + p) < 10 ^ 16).
    { rewrite Z.pow_add_r by lia.
      assert (2 ^ 53 < 10 ^ 16) by (vm_compute; reflexivity). nia. }
    apply Z.pow_lt_mono_r_iff in Hlt; lia.
  - repeat split; lia.
Qed.

(** [parseInt] reads back what [String] shows of a number in the range of
    exact integers, whatever follows the numeral. *)
Lemma parseInt_numberToString (n : Z) (rest : string) :
  Z.abs n < 2 ^ 53 -> endsNumeral rest = true ->
  JsString.parseInt (numberToString (Fin n) ++ rest)%string = Fin n.
Proof.
  intros Hn Hr.
  assert (Hpos : forall x, 0 < x < 2 ^ 53 ->
            JsString.parseIntExact (renderPositive x ++ rest)%string = Some x /\
            JsString.parseIntExact (String "-" (renderPositive x ++ rest))%string =
              Some (- x)).
  { intros x Hx. unfold renderPositive.
    pose proof (shortest_small x Hx) as Hs.
    destruct (shortest x) as [[k s] p]. destruct Hs as (Hv & Hs & Hp & Hkp).
    replace (k + p <=? 21) with true by (symmetry; apply Z.leb_le; lia).
    rewrite append_assoc.
    pose proof (parseIntExact_decimal s (Z.to_nat p) rest ltac:(lia) Hr) as H.
    rewrite Z2Nat.id in H by lia. by rewrite Hv in H. }
  unfold JsString.parseInt, numberToString.
  destruct (Z.eqb_spec n 0) as [->|Hne].
  - pose proof (parseIntExact_decimal 0 0 rest ltac:(lia) Hr) as [H _].
    change (decimal 0 ++ zeros 0 ++ rest)%string with ("0" ++ rest)%string in H.
    rewrite H. reflexivity.
  - destruct (Z.ltb_spec n 0).
    + cbn [String.append]. rewrite (proj2 (Hpos (- n) ltac:(lia))).
      rewrite Z.opp_involutive. apply ofZ_small. lia.
    + rewrite (proj1 (Hpos n ltac:(lia))). apply ofZ_small. lia.
Qed.

Lemma secondsField_ok (k : Z) :
  0 <= k < 60 ->
  String.length (secondsField (Fin k)) = 2%nat /\
  JsString.parseInt (secondsField (Fin k)) = Fin k.
Proof.
  intros Hk.
  assert (Hall : forallb (fun n =>
            Nat.eqb (String.length (secondsField (Fin (Z.of_nat n)))) 2 &&
            JsNum.same (JsString.parseInt (secondsField (Fin (Z.of_nat n))))
                       (Fin (Z.of_nat n))) (seq 0 60) = true)
    by (vm_compute; reflexivity).
  rewrite forallb_forall in Hall.
  specialize (Hall (Z.to_nat k)).
  rewrite Z2Nat.id in Hall by lia.
  assert (Hin : In (Z.to_nat k) (seq 0 60)) by (apply in_seq; lia).
  apply Hall, andb_true_iff in Hin as [Hlen Hparse].
  split; [by apply Nat.eqb_eq | by apply same_eq].
Qed.

Lemma endsNumeral_colon (rest : string) : endsNumeral (String ":" rest) = true.
Proof. reflexivity. Qed.

(** X14.  For a time from 0 to 2^53 seconds, the range in which the
    page's numbers are exact integers, [formatTime] gives the minutes, a
    colon and exactly two characters for the seconds; read back with
    [parseInt] the two parts are [t / 60] and [t mod 60], and two
    different times are never displayed alike. *)
Theorem formatTime_reads_back (a b : Z) :
  0 <= a <= 2 ^ 53 -> 0 <= b <= 2 ^ 53 ->
  (exists ss, formatTime (Fin a) = (numberToString (Fin (a / 60)) ++ ":" ++ ss)%string /\
              String.length ss = 2%nat /\
              JsString.parseInt ss = Fin (a mod 60)) /\
  JsString.parseInt (formatTime (Fin a)) = Fin (a / 60) /\
  (formatTime (Fin a) = formatTime (Fin b) -> a = b).
Proof.
  intros Ha Hb.
  assert (Hshape : forall t, 0 <= t <= 2 ^ 53 ->
            formatTime (Fin t) =
            (numberToString (Fin (t / 60)) ++ ":" ++ secondsField (Fin (t mod 60)))%string).
  { intros t Ht. unfold formatTime, secondsField.
    rewrite floorDiv_small by exact Ht. unfold JsNum.rem.
    rewrite Z.rem_mod_nonneg by lia. reflexivity. }
  assert (Hquot : forall t, 0 <= t <= 2 ^ 53 -> Z.abs (t / 60) < 2 ^ 53).
  { intros t Ht. assert (0 <= t / 60) by (apply Z.div_pos; lia).
    assert (t / 60 < 2 ^ 53) by (apply Z.div_lt_upper_bound; lia). lia. }
  assert (Hmin : forall t, 0 <= t <= 2 ^ 53 ->
            JsString.parseInt (formatTime (Fin t)) = Fin (t / 60)).
  { intros t Ht. rewrite (Hshape t Ht).
    apply parseInt_numberToString; [by apply Hquot | reflexivity]. }
  assert (Hsec : forall t, 0 <= t -> 0 <= t mod 60 < 60)
    by (intros; apply Z.mod_pos_bound; lia).
  split; [|split].
  - exists (secondsField (Fin (a mod 60))).
    split; [by apply Hshape|]. apply secondsField_ok, Hsec. lia.
  - by apply Hmin.
  - intros Heq.
    assert (Hq : a / 60 = b / 60).
    { pose proof (Hmin a Ha) as H1. rewrite Heq, (Hmin b Hb) in H1. congruence. }
    rewrite (Hshape a Ha), (Hshape b Hb), Hq in Heq.
    apply append_inv_head in Heq. simpl in Heq. injection Heq as Heq.
    assert (Hr : a mod 60 = b mod 60).
    { pose proof (proj2 (secondsField_ok _ (Hsec a ltac:(lia)))) as H1.
      rewrite Heq, (proj2 (secondsField_ok _ (Hsec b ltac:(lia)))) in H1. congruence. }
    rewrite (Z.div_mod a 60), (Z.div_mod b 60) by lia. lia.
Qed.

(** ** The timer on the page *)

Lemma st_step (e : Event) (w : World) : st (fst (step e w)) = fst (handle e w).
Proof. unfold step. destruct (handle e w). simpl. apply st_commit. Qed.

Lemma out_step (e : Event) (w : World) : snd (step e w) = snd (handle e w).
Proof. unfold step. by destruct (handle e w). Qed.

Lemma step_inactive_unarmed (e : Event) (w : World) :
  armedOk w -> active (timerSettings (fst (handle e w))) = false ->
  interval (fst (step e w)) = None.
Proof.
  intros Hw Ha. unfold step. destruct (handle e w) as [s' out]. simpl in *.
  by apply commit_inactive.
Qed.

Lemma pending_commit (w : World) (s' : State) (p : nat) : pending (commit w s' p) = p.
Proof. unfold commit. by destruct (depsChanged (st w) s'). Qed.

Lemma interval_commit_same_deps (w : World) (s' : State) (p : nat) :
  active (timerSettings s') = active (timerSettings (st w)) ->
  timeRemaining s' = timeRemaining (st w) ->
  interval (commit w s' p) = interval w.
Proof.
  intros Ha Ht. unfold commit, depsChanged.
  rewrite Ha, Ht, Bool.eqb_reflx. by rewrite (proj2 (same_eq _ _) eq_refl).
Qed.

Lemma ticks_unarmed_silent (n : nat) (w : World) :
  interval w = None -> run (ticks n) w = (w, []).
Proof.
  intros Hi. induction n as [|n IH]; [reflexivity|].
  change (ticks (S n)) with (Tick :: ticks n).
  rewrite run_cons, (step_tick_unarmed w Hi). simpl. by rewrite IH.
Qed.

(** X1.  On the page an interval is armed exactly when the timer is
    active and time is left: no interval survives a pause, a reset or
    the end of the countdown, and none is missing while it runs. *)
Theorem interval_armed_iff_running (w : World) :
  reachable w ->
  (is_Some (interval w) <->
   active (timerSettings (st w)) = true /\
   JsNum.ltb (Fin 0) (timeRemaining (st w)) = true).
Proof.
  intros Hr%reachable_armedOk. unfold armedOk in Hr.
  destruct (interval w) as [env|]; split.
  - intros _. tauto.
  - intros _. by eexists.
  - intros [x Hx]. discriminate.
  - intros [Ha Ht]. destruct Hr; congruence.
Qed.

Lemma active_tickCallback (env s : State) :
  active (timerSettings (fst (tickCallback env s))) = active (timerSettings s) \/
  JsNum.sub (timeRemaining s) (Fin 1) = Fin 0.
Proof.
  unfold tickCallback.
  destruct (JsNum.eqb (JsNum.sub (timeRemaining s) (Fin 1)) (Fin 0)) eqn:E.
  - right. by apply eqb_Fin.
  - left. reflexivity.
Qed.

Lemma ticks_count_down_armedOk (n : nat) :
  forall (w : World) (t : Z), armedOk w ->
    timeRemaining (st w) = Fin t -> 0 <= t <= 2 ^ 53 ->
    active (timerSettings (st w)) = true \/ t = 0 ->
    timeRemaining (st (fst (run (ticks n) w))) = Fin (Z.max 0 (t - Z.of_nat n)).
Proof.
  induction n as [|n IH]; intros w t Hw Ht Hb Ha.
  { simpl. rewrite Ht. f_equal. lia. }
  destruct (Z.eq_dec t 0) as [H0|Hpos].
  - rewrite ticks_expired_silent; [|exact Hw | rewrite Ht, H0; reflexivity].
    simpl. rewrite Ht. f_equal. lia.
  - destruct Ha as [Ha|]; [|lia].
    change (ticks (S n)) with (Tick :: ticks n). rewrite run_cons. simpl.
    assert (Hi : exists env, interval w = Some env).
    { unfold armedOk in Hw. destruct (interval w); [by eexists|].
      rewrite Ht in Hw. simpl in Hw. destruct Hw as [Hw|Hw]; [congruence|].
      apply Z.ltb_ge in Hw. lia. }
    destruct Hi as [env Hi].
    pose proof (st_step_tick_armed w env Hi) as Hst.
    pose proof (timeRemaining_tickCallback env (st w)) as Htime.
    rewrite Ht, sub1_small in Htime by lia.
    rewrite (IH _ (t - 1)).
    + f_equal. lia.
    + by apply step_armedOk.
    + by rewrite Hst, Htime.
    + lia.
    + rewrite Hst.
      destruct (active_tickCallback env (st w)) as [Hsame|Hz]; [left; congruence|].
      right. rewrite Ht, sub1_small in Hz by lia. by injection Hz.
Qed.

(** X2.  From a running timer with [t] seconds left, [0 <= t <= 2^53]
    (the range in which subtracting 1 is exact), [n] ticks leave
    [max 0 (t - n)]: the countdown loses one second per tick and stops
    at 0, never below. *)
Theorem ticks_count_down (w : World) (n : nat) (t : Z) :
  reachable w ->
  active (timerSettings (st w)) = true ->
  timeRemaining (st w) = Fin t ->
  0 <= t <= 2 ^ 53 ->
  timeRemaining (st (fst (run (ticks n) w))) = Fin (Z.max 0 (t - Z.of_nat n)).
Proof.
  intros Hr Ha Ht Hb. apply ticks_count_down_armedOk; auto.
  by apply reachable_armedOk.
Qed.

(** X3.  Pausing a running timer clears [active] and nothing else, so the
    seconds left are kept; no interval is armed afterwards and any number
    of ticks changes and emits nothing. *)
Theorem pause_freezes_countdown (w : World) (n : nat) :
  reachable w ->
  active (timerSettings (st w)) = true ->
  let w1 := fst (step ClickPause w) in
  st w1 = setTimerSettings (withActive false (timerSettings (st w))) (st w) /\
  interval w1 = None /\
  run (ticks n) w1 = (w1, []).
Proof.
  intros Hr%reachable_armedOk Ha w1.
  assert (Hst : st w1 = setTimerSettings (withActive false (timerSettings (st w))) (st w)).
  { unfold w1. rewrite st_step. unfold handle, when. by rewrite Ha. }
  assert (Hi : interval w1 = None).
  { apply step_inactive_unarmed; [exact Hr|].
    unfold handle, when. by rewrite Ha. }
  split; [exact Hst|]. split; [exact Hi|]. by apply ticks_unarmed_silent.
Qed.

(** X4.  Reset clears [active] and reloads the countdown with the
    configured [minutes * 60 + seconds]; no interval is armed afterwards,
    ticks do nothing, and a second reset changes nothing. *)
Theorem reset_reloads_and_stops (w : World) (n : nat) :
  reachable w ->
  let w1 := fst (step ClickReset w) in
  st w1 = setTimeRemaining (totalSeconds (timerSettings (st w)))
            (setTimerSettings (withActive false (timerSettings (st w))) (st w)) /\
  interval w1 = None /\
  run (ticks n) w1 = (w1, []) /\
  step ClickReset w1 = (w1, []).
Proof.
  intros Hr%reachable_armedOk w1.
  assert (Hst : st w1 = setTimeRemaining (totalSeconds (timerSettings (st w)))
            (setTimerSettings (withActive false (timerSettings (st w))) (st w)))
    by (unfold w1; by rewrite st_step).
  assert (Hi : interval w1 = None) by (by apply step_inactive_unarmed).
  split; [exact Hst|]. split; [exact Hi|]. split; [by apply ticks_unarmed_silent|].
  unfold step, handle.
  assert (Hsame : resetTimer (st w1) (st w1) = st w1) by (by rewrite Hst).
  rewrite Hsame, Nat.add_0_r. by rewrite commit_same.
Qed.

(** X5.  A quick-start button does what the start button does: the
    1, 2 or 3 minutes it sets are overwritten by [startTimer], which reads
    the settings of the render, so the countdown starts from the settings
    held before the click, whichever button is clicked. *)
Theorem quick_start_ignores_choice (w : World) (q : QuickChoice) :
  conversations (st w) = [] ->
  st (fst (step (ClickQuickStart q) w)) = startTimer (st w) (st w) /\
  timeRemaining (st (fst (step (ClickQuickStart q) w))) =
    totalSeconds (timerSettings (st w)) /\
  minutes (timerSettings (st (fst (step (ClickQuickStart q) w)))) =
    minutes (timerSettings (st w)).
Proof.
  intros Hc.
  assert (Hst : st (fst (step (ClickQuickStart q) w)) = startTimer (st w) (st w)).
  { rewrite st_step. unfold handle, when. rewrite Hc.
    rewrite bool_decide_eq_true_2 by reflexivity. reflexivity. }
  rewrite Hst. by repeat split.
Qed.
(** ** The transcript and the requests *)







(** What [startDebate] does when it does not return at once. *)
Lemma startDebate_cases (env s : State) :
  (JsString.truthy (JsString.trim (userInput env)) = false /\
   startDebate env s = (s, [])) \/
  (JsString.truthy (JsString.trim (userInput env)) = true /\
   startDebate env s =
     (pauseTimer env
        (setUserInput ""
           (setLoading true
              (setConversations
                 (conversations env ++ [userMessage (userInput env) (stance env)])
                 s))),
      [Fetch (userInput env) (stance env)])).
Proof.
  unfold startDebate.
  destruct (JsString.truthy (JsString.trim (userInput env))); [right | left]; by split.
Qed.

Lemma truthy_not_empty (u : string) : JsString.truthy u = true -> u <> "".
Proof. by destruct u. Qed.

(** X6.  No event other than a tick removes, reorders or rewrites a
    message: the transcript after the event is the transcript before it,
    or that with one message appended. *)
Theorem transcript_append_only (e : Event) (w : World) :
  e <> Tick ->
  conversations (st (fst (step e w))) = conversations (st w) \/
  exists m, conversations (st (fst (step e w))) = conversations (st w) ++ [m].
Proof.
  intros He. rewrite st_step.
  assert (Hsd : conversations (fst (startDebate (st w) (st w))) = conversations (st w) \/
           exists m, conversations (fst (startDebate (st w) (st w))) =
                     conversations (st w) ++ [m]).
  { destruct (startDebate_cases (st w) (st w)) as [[_ ->]|[_ ->]];
      [by left | right; by eexists]. }
  destruct e; unfold handle, when; simpl; try (by left); try congruence.
  - unfold handleKeyDown. by destruct (_ && _); [|left].
  - unfold sendClick. by destruct (_ || _); [left|].
  - destruct (_ || _); by left.
  - destruct (active _); by left.
  - destruct (_ <? _); [|by left]. unfold nextRound.
    destruct (_ <? _); [|by left]. destruct (roundAt _ _); by left.
  - destruct (showTimerSettings _); by left.
  - destruct (showTimerSettings _); by left.
  - destruct (showTimerSettings _); by left.
  - destruct (showTimerSettings _); [|by left]. unfold onRoundNameChange.
    destruct (_ !! _); by left.
  - destruct (showTimerSettings _); [|by left]. unfold onRoundDurationChange.
    destruct (_ !! _); by left.
  - destruct (showTimerSettings _ && _); [|by left]. unfold removeRound, removeRoundClick.
    destruct (1 <? _); [|by left]. destruct (_ <=? _); by left.
  - destruct (showTimerSettings _); by left.
  - case_bool_decide; by left.
  - destruct (pending w); [by left|]. right. by eexists.
Qed.

(** X7.  Whenever an event sends a request for draft [u] with stance
    [side], it sends exactly that one, [u] is not blank, and afterwards
    the transcript ends with the user message for [u] and [side],
    [loading] is set, the draft is empty, the timer is inactive and no
    interval is armed. *)
Theorem request_is_recorded (e : Event) (w : World) (u side : string) :
  reachable w ->
  In (Fetch u side) (snd (step e w)) ->
  let w' := fst (step e w) in
  last (conversations (st w')) = Some (userMessage u side) /\
  loading (st w') = true /\
  userInput (st w') = "" /\
  active (timerSettings (st w')) = false /\
  interval w' = None /\
  JsString.trim u <> "" /\
  requests (snd (step e w)) = 1%nat.
Proof.
  intros Hr%reachable_armedOk Hin w'.
  assert (Hsd : forall env s pre,
             requests pre = 0%nat ->
             In (Fetch u side) (pre ++ snd (startDebate env s)) ->
             let s' := fst (startDebate env s) in
             last (conversations s') = Some (userMessage u side) /\
             loading s' = true /\ userInput s' = "" /\
             active (timerSettings s') = false /\
             JsString.trim u <> "" /\
             requests (pre ++ snd (startDebate env s)) = 1%nat).
  { intros env s pre Hpre Hin'. apply in_app_or in Hin' as [Hin'|Hin'].
    - exfalso. clear -Hpre Hin'. induction pre as [|[c|a b] pre IH]; simpl in *;
        [tauto | | discriminate]. destruct Hin' as [|]; [discriminate | by apply IH].
    - destruct (startDebate_cases env s) as [[_ E]|[Ht E]]; rewrite E in *; simpl in *;
        [tauto|]. destruct Hin' as [Heq|[]]. injection Heq as <- <-.
      rewrite last_snoc, requests_app, Hpre. repeat split.
      by apply truthy_not_empty. }
  assert (Hmain :
    last (conversations (fst (handle e w))) = Some (userMessage u side) /\
    loading (fst (handle e w)) = true /\ userInput (fst (handle e w)) = "" /\
    active (timerSettings (fst (handle e w))) = false /\
    JsString.trim u <> "" /\ requests (snd (handle e w)) = 1%nat).
  { rewrite out_step in Hin.
    destruct e; unfold handle, when in *; simpl in *; try tauto.
    - destruct (interval w) as [env|]; [|simpl in Hin; tauto].
      unfold tickCallback in *.
      set (sounds := if soundEnabled env then cuesAt (JsNum.sub (timeRemaining (st w)) (Fin 1)) else []) in *.
      assert (Hs0 : requests sounds = 0%nat)
        by (unfold sounds; destruct (soundEnabled env); [apply requests_cuesAt | reflexivity]).
      destruct (JsNum.eqb (JsNum.sub (timeRemaining (st w)) (Fin 1)) (Fin 0) &&
                JsString.truthy (JsString.trim (userInput env))).
      + specialize (Hsd env (st w) sounds Hs0).
        destruct (startDebate env (st w)) as [s1 sent]. simpl in *. by apply Hsd.
      + simpl in Hin. rewrite app_nil_r in Hin. exfalso. clear -Hs0 Hin.
        induction sounds as [|[c|a b] pre IH]; simpl in *;
          [tauto | | discriminate]. destruct Hin as [|]; [discriminate | by apply IH].
    - unfold handleKeyDown in *. destruct (_ && _); [|simpl in Hin; tauto].
      by apply (Hsd (st w) (st w) []).
    - unfold sendClick in *. destruct (_ || _); [simpl in Hin; tauto|].
      by apply (Hsd (st w) (st w) []).
    - destruct (_ || _); simpl in Hin; tauto.
    - destruct (active _); simpl in Hin; tauto.
    - destruct (_ <? _); simpl in Hin; tauto.
    - destruct (showTimerSettings _); simpl in Hin; tauto.
    - destruct (showTimerSettings _); simpl in Hin; tauto.
    - destruct (showTimerSettings _); simpl in Hin; tauto.
    - destruct (showTimerSettings _); simpl in Hin; tauto.
    - destruct (showTimerSettings _); simpl in Hin; tauto.
    - destruct (showTimerSettings _ && _); simpl in Hin; tauto.
    - destruct (showTimerSettings _); simpl in Hin; tauto.
    - case_bool_decide; simpl in Hin; tauto.
    - destruct (pending w); simpl in Hin; tauto. }
  destruct Hmain as (H1 & H2 & H3 & H4 & H5 & H6).
  unfold w'. rewrite st_step, out_step. repeat split; try assumption.
  by apply step_inactive_unarmed.
Qed.

(** ** Invariants of the page *)










Lemma loading_startDebate (env s : State) :
  loading (fst (startDebate env s)) = true ->
  loading s = true \/ (1 <= requests (snd (startDebate env s)))%nat.
Proof.
  unfold startDebate.
  destruct (negb (JsString.truthy (JsString.trim (userInput env)))); simpl; auto.
Qed.

Lemma loading_handle (e : Event) (w : World) :
  (forall o, e <> Settled o) ->
  loading (fst (handle e w)) = true ->
  loading (st w) = true \/ (1 <= requests (snd (handle e w)))%nat.
Proof.
  intros He.
  destruct e; unfold handle, when; simpl; auto.
  - destruct (interval w) as [env|]; [|auto]. unfold tickCallback.
    destruct (JsNum.eqb (JsNum.sub (timeRemaining (st w)) (Fin 1)) (Fin 0) &&
              JsString.truthy (JsString.trim (userInput env))); [|auto].
    pose proof (loading_startDebate env (st w)) as Hl.
    destruct (startDebate env (st w)) as [s1 sent]. simpl in *.
    intros H. destruct (Hl H) as [|Hreq]; [by left | right].
    rewrite requests_app. lia.
  - unfold handleKeyDown. destruct (_ && _); [apply loading_startDebate | auto].
  - unfold sendClick. destruct (_ || _); [auto | apply loading_startDebate].
  - destruct (_ || _); auto.
  - destruct (active _); auto.
  - destruct (_ <? _); [|auto]. unfold nextRound.
    destruct (_ <? _); [|auto]. destruct (roundAt _ _); auto.
  - destruct (showTimerSettings _); auto.
  - destruct (showTimerSettings _); auto.
  - destruct (showTimerSettings _); auto.
  - destruct (showTimerSettings _); [|auto]. unfold onRoundNameChange.
    destruct (_ !! _); auto.
  - destruct (showTimerSettings _); [|auto]. unfold onRoundDurationChange.
    destruct (_ !! _); auto.
  - destruct (showTimerSettings _ && _); [|auto]. unfold removeRound, removeRoundClick.
    destruct (1 <? _); [|auto]. destruct (_ <=? _); auto.
  - destruct (showTimerSettings _); auto.
  - case_bool_decide; auto.
  - by destruct (He o).
Qed.

Lemma step_loadingOk (e : Event) (w : World) :
  loadingOk w -> loadingOk (fst (step e w)).
Proof.
  unfold loadingOk. intros Hw.
  destruct e;
    try (rewrite st_step; intros Hl;
         apply loading_handle in Hl; [|discriminate];
         unfold step; destruct (handle _ w) as [s' out]; simpl in *;
         rewrite pending_commit; destruct Hl as [Hl|Hl]; [specialize (Hw Hl)|]; lia).
  rewrite st_step. unfold step, handle.
  destruct (pending w) as [|k] eqn:Hp; simpl.
  - rewrite pending_commit. intros Hl. specialize (Hw Hl). lia.
  - discriminate.
Qed.

(** X8.  On the page the loading indicator is on only while a request
    is in flight: it cannot stay on with nothing left to clear it. *)
Theorem loading_means_request_in_flight (w : World) :
  reachable w -> loading (st w) = true -> (1 <= pending w)%nat.
Proof.
  intros [es <-]. change (loadingOk (fst (run es initialWorld))).
  assert (H0 : loadingOk initialWorld) by (unfold loadingOk; discriminate).
  revert H0. generalize initialWorld.
  induction es as [|e es IH]; intros w0 H0; [exact H0|].
  rewrite run_cons. simpl. apply IH. by apply step_loadingOk.
Qed.

(** X9.  On the page [rounds[currentRound]] is always defined: the
    header shows the name of a round and never reads [.name] of
    [undefined], and when next-round passes its test the round it loads
    exists. *)
Theorem render_reads_defined_round (w : World) :
  reachable w ->
  (exists r, roundAt (rounds (st w)) (currentRound (st w)) = Some r /\
             headerRoundName (st w) = Some (Some (name r))) /\
  (currentRound (st w) < Z.of_nat (length (rounds (st w))) - 1 ->
   is_Some (roundAt (rounds (st w)) (currentRound (st w) + 1))).
Proof.
  intros Hc%reachable_cursorOk. unfold cursorOk in Hc.
  assert (Hat : forall i, 0 <= i < Z.of_nat (length (rounds (st w))) ->
                          is_Some (roundAt (rounds (st w)) i)).
  { intros i Hi. unfold roundAt.
    replace (i <? 0) with false by (symmetry; apply Z.ltb_ge; lia).
    apply lookup_lt_is_Some. lia. }
  split.
  - destruct (Hat _ Hc) as [r Hr]. exists r. split; [exact Hr|].
    unfold headerRoundName. rewrite Hr.
    replace (0 <? Z.of_nat (length (rounds (st w)))) with true
      by (symmetry; apply Z.ltb_lt; lia).
    reflexivity.
  - intros Hlt. apply Hat. lia.
Qed.

Lemma parseIntOr_truthy (value : string) (d : Num) :
  JsNum.truthy d = true -> JsNum.truthy (JsString.parseIntOr value d) = true.
Proof.
  intros Hd. unfold JsString.parseIntOr.
  by destruct (JsNum.truthy (JsString.parseInt value)) eqn:E.
Qed.

Lemma handle_durationsNonZero (e : Event) (w : World) :
  durationsNonZero (st w) -> durationsNonZero (fst (handle e w)).
Proof.
  unfold durationsNonZero. intros Hd.
  destruct e; unfold handle, when; simpl; try exact Hd.
  - destruct (interval w) as [env|]; [|exact Hd].
    by rewrite (proj1 (tickCallback_plan env (st w))).
  - unfold handleKeyDown. destruct (_ && _); [|exact Hd].
    by rewrite (proj1 (startDebate_plan (st w) (st w))).
  - unfold sendClick. destruct (_ || _); [exact Hd|].
    by rewrite (proj1 (startDebate_plan (st w) (st w))).
  - by destruct (_ || _).
  - by destruct (active _).
  - destruct (_ <? _); [|exact Hd]. unfold nextRound.
    destruct (_ <? _); [|exact Hd]. by destruct (roundAt _ _).
  - by destruct (showTimerSettings _).
  - by destruct (showTimerSettings _).
  - by destruct (showTimerSettings _).
  - destruct (showTimerSettings _); [|exact Hd]. unfold onRoundNameChange.
    destruct (rounds (st w) !! index) as [r|] eqn:Hr; [|exact Hd]. simpl.
    apply Forall_insert; [exact Hd|]. simpl.
    by apply (Forall_lookup_1 _ _ _ _ Hd Hr).
  - destruct (showTimerSettings _); [|exact Hd]. unfold onRoundDurationChange.
    destruct (rounds (st w) !! index) as [r|] eqn:Hr; [|exact Hd]. simpl.
    apply Forall_insert; [exact Hd|]. simpl. by apply parseIntOr_truthy.
  - destruct (showTimerSettings _ && _); [|exact Hd]. unfold removeRound, removeRoundClick.
    rewrite filterIndex_delete.
    destruct (1 <? _); [|exact Hd]. destruct (_ <=? _); simpl; by apply Forall_delete.
  - destruct (showTimerSettings _); [|exact Hd]. simpl.
    apply Forall_app. split; [exact Hd|]. by constructor.
  - by case_bool_decide.
  - by destruct (pending w).
Qed.

(** X10.  No round of the plan ever has duration 0 or NaN: the three
    initial rounds and an added round are not 0, and a duration input
    that parses to 0 or to nothing is replaced by 60. *)
Theorem round_duration_never_zero (w : World) (r : RoundStructure) :
  reachable w -> In r (rounds (st w)) ->
  duration r <> Fin 0 /\ duration r <> NaN.
Proof.
  intros [es <-].
  assert (Hall : durationsNonZero (st (fst (run es initialWorld)))).
  { assert (H0 : durationsNonZero (st initialWorld))
      by (repeat constructor).
    revert H0. generalize initialWorld.
    induction es as [|e es IH]; intros w0 H0; [exact H0|].
    rewrite run_cons. cbn [fst]. apply IH. rewrite st_step.
    by apply handle_durationsNonZero. }
  intros Hin. unfold durationsNonZero in Hall. rewrite Forall_forall in Hall.
  assert (Ht : JsNum.truthy (duration r) = true)
    by (apply Hall; by apply list_elem_of_In).
  split; intros E; rewrite E in Ht; discriminate Ht.
Qed.

(** ** The round editor and the display *)




Lemma roundAt_of_nat (rs : list RoundStructure) (k : nat) :
  roundAt rs (Z.of_nat k) = rs !! k.
Proof.
  unfold roundAt. replace (Z.of_nat k <? 0) with false
    by (symmetry; apply Z.ltb_ge; lia).
  by rewrite Nat2Z.id.
Qed.

(** X11.  Removing a round does not move the cursor unless it was on
    the last round.  So removing a round after the active one keeps the
    active round; removing the active round or one before it, when the
    cursor is not on the last round, makes the round that followed the
    active one the active round; with the cursor on the last round,
    removing an earlier round keeps the active round and removing the
    last round activates the one before it. *)
Theorem removeRound_active_round (s : State) (index : nat) :
  (1 < length (rounds s))%nat ->
  (index < length (rounds s))%nat ->
  cursorOk s ->
  let s' := removeRound s index s in
  let cur := currentRound s in
  let lastIndex := Z.of_nat (length (rounds s)) - 1 in
  let shown := roundAt (rounds s') (currentRound s') in
  (cur < Z.of_nat index -> shown = roundAt (rounds s) cur) /\
  (Z.of_nat index <= cur < lastIndex -> shown = roundAt (rounds s) (cur + 1)) /\
  (Z.of_nat index < cur -> cur = lastIndex -> shown = roundAt (rounds s) cur) /\
  (Z.of_nat index = cur -> cur = lastIndex -> shown = roundAt (rounds s) (cur - 1)).
Proof.
  intros Hlen Hi Hc s' cur lastIndex shown.
  unfold cursorOk in Hc. fold cur in Hc.
  assert (Hrs : rounds s' = delete index (rounds s)).
  { unfold s', removeRound, removeRoundClick. rewrite filterIndex_delete.
    replace (1 <? Z.of_nat (length (rounds s))) with true
      by (symmetry; apply Z.ltb_lt; lia).
    by destruct (_ <=? _). }
  assert (Hdl : length (delete index (rounds s)) = (length (rounds s) - 1)%nat)
    by (apply length_delete, lookup_lt_is_Some_2, Hi).
  assert (Hcur : currentRound s' = if lastIndex <=? cur then lastIndex - 1 else cur).
  { unfold s', removeRound, removeRoundClick. rewrite filterIndex_delete.
    replace (1 <? Z.of_nat (length (rounds s))) with true
      by (symmetry; apply Z.ltb_lt; lia).
    rewrite Hdl. fold cur.
    replace (Z.of_nat (length (rounds s) - 1)) with lastIndex by (unfold lastIndex; lia).
    by destruct (lastIndex <=? cur). }
  unfold shown. rewrite Hrs, Hcur.
  set (c := Z.to_nat cur). assert (Ec : cur = Z.of_nat c) by (unfold c; lia).
  repeat split.
  - intros Hlt. replace (lastIndex <=? cur) with false
      by (symmetry; apply Z.leb_gt; unfold lastIndex; lia).
    rewrite Ec, !roundAt_of_nat. apply list_lookup_delete_lt. lia.
  - intros Hb. replace (lastIndex <=? cur) with false
      by (symmetry; apply Z.leb_gt; lia).
    rewrite Ec. replace (Z.of_nat c + 1) with (Z.of_nat (S c)) by lia.
    rewrite !roundAt_of_nat. apply list_lookup_delete_ge. lia.
  - intros Hlt Hlast. replace (lastIndex <=? cur) with true
      by (symmetry; apply Z.leb_le; lia).
    replace (lastIndex - 1) with (Z.of_nat (c - 1)%nat) by lia.
    rewrite Ec, !roundAt_of_nat.
    rewrite list_lookup_delete_ge by lia. f_equal. lia.
  - intros Heq Hlast. replace (lastIndex <=? cur) with true
      by (symmetry; apply Z.leb_le; lia).
    replace (lastIndex - 1) with (Z.of_nat (c - 1)%nat) by (unfold lastIndex in *; lia).
    replace (cur - 1) with (Z.of_nat (c - 1)%nat) by (unfold lastIndex in *; lia).
    rewrite !roundAt_of_nat. apply list_lookup_delete_lt. unfold lastIndex in *. lia.
Qed.

(** X12.  Renaming a round, changing a duration, adding a round and
    removing a round leave the timer settings, the seconds left and the
    armed interval as they are and emit nothing, also when the round
    edited is the active one. *)
Theorem round_edit_keeps_timer (e : Event) (w : World) :
  isRoundEdit e = true ->
  let w' := fst (step e w) in
  timerSettings (st w') = timerSettings (st w) /\
  timeRemaining (st w') = timeRemaining (st w) /\
  interval w' = interval w /\
  snd (step e w) = [].
Proof.
  intros He w'.
  assert (H : timerSettings (fst (handle e w)) = timerSettings (st w) /\
              timeRemaining (fst (handle e w)) = timeRemaining (st w) /\
              snd (handle e w) = []).
  { destruct e; try discriminate; unfold handle, when; simpl.
    - destruct (showTimerSettings _); [|done]. unfold onRoundNameChange.
      by destruct (_ !! _).
    - destruct (showTimerSettings _); [|done]. unfold onRoundDurationChange.
      by destruct (_ !! _).
    - destruct (showTimerSettings _ && _); [|done].
      unfold removeRound, removeRoundClick.
      destruct (1 <? _); [|done]. by destruct (_ <=? _).
    - by destruct (showTimerSettings _). }
  destruct H as (Hts & Htr & Hout).
  unfold w'. rewrite st_step, out_step. repeat split; try assumption.
  unfold step. destruct (handle e w) as [s1 out]. simpl in *.
  apply interval_commit_same_deps; congruence.
Qed.

Lemma parseIntOr_numberToString (n : Z) (d : Num) :
  Z.abs n < 2 ^ 53 ->
  JsString.parseIntOr (numberToString (Fin n)) d = if n =? 0 then d else Fin n.
Proof.
  intros Hn. unfold JsString.parseIntOr.
  rewrite <- (append_empty_r (numberToString (Fin n))).
  rewrite parseInt_numberToString by (exact Hn || reflexivity).
  simpl. by destruct (n =? 0).
Qed.

(** X13.  Entering into the minutes or seconds field the value it
    displays stores the same value, when that value is an integer of
    magnitude below 2^53 (which the field shows with all its digits),
    and so does the duration field of a round whose duration is such an
    integer other than 0: the state is unchanged. *)
Theorem field_value_round_trip (s : State) (index : nat) (r : RoundStructure)
    (m sec d : Z) :
  minutes (timerSettings s) = Fin m -> Z.abs m < 2 ^ 53 ->
  seconds (timerSettings s) = Fin sec -> Z.abs sec < 2 ^ 53 ->
  rounds s !! index = Some r ->
  duration r = Fin d -> Z.abs d < 2 ^ 53 -> d <> 0 ->
  onMinutesChange s (numberToString (minutes (timerSettings s))) s = s /\
  onSecondsChange s (numberToString (seconds (timerSettings s))) s = s /\
  onRoundDurationChange s index (numberToString (duration r)) s = s.
Proof.
  intros Hm Hmb Hs Hsb Hr Hd Hdb Hd0.
  assert (Hz : forall n, Z.abs n < 2 ^ 53 ->
            JsString.parseIntOr (numberToString (Fin n)) (Fin 0) = Fin n).
  { intros n Hn. rewrite parseIntOr_numberToString by exact Hn.
    destruct (n =? 0) eqn:E; [f_equal; symmetry; by apply Z.eqb_eq | reflexivity]. }
  split; [|split].
  - unfold onMinutesChange. rewrite Hm, Hz by exact Hmb. rewrite <- Hm.
    by destruct s as [? ? ? ? ? [] ? ? ? ?].
  - unfold onSecondsChange. rewrite Hs, Hz by exact Hsb. rewrite <- Hs.
    by destruct s as [? ? ? ? ? [] ? ? ? ?].
  - unfold onRoundDurationChange.
    rewrite Hr, Hd, parseIntOr_numberToString by exact Hdb.
    apply Z.eqb_neq in Hd0. rewrite Hd0, <- Hd.
    replace (mkRound (name r) (duration r)) with r by (by destruct r).
    rewrite list_insert_id by exact Hr. by destruct s.
Qed.

(** X15.  The colour of the countdown differs between [t] and [t - 1]
    exactly when [t - 1] is 30, 15 or 5, the thresholds of the three
    warning sounds: the colour changes on the ticks that can play
    them. *)
Theorem colour_changes_at_warnings (s : State) (t : Z) :
  getTimerColor (setTimeRemaining (Fin (t - 1)) s) <>
    getTimerColor (setTimeRemaining (Fin t) s) <->
  exists c, c <> timeUp /\ threshold c = t - 1.
Proof.
  assert (Hleb : forall a b, JsNum.leb (Fin a) (Fin b) = (a <=? b)).
  { intros a b. unfold JsNum.leb. simpl.
    destruct (Z.ltb_spec a b), (Z.eqb_spec a b), (Z.leb_spec a b); (reflexivity || lia). }
  unfold getTimerColor. cbn [timeRemaining setTimeRemaining]. rewrite !Hleb. split.
  - intros Hne.
    destruct (Z.leb_spec (t - 1) 5), (Z.leb_spec t 5),
             (Z.leb_spec (t - 1) 15), (Z.leb_spec t 15),
             (Z.leb_spec (t - 1) 30), (Z.leb_spec t 30);
      try lia; try congruence.
    + exists fiveSecond. split; [discriminate | simpl; lia].
    + exists fifteenSecond. split; [discriminate | simpl; lia].
    + exists thirtySecond. split; [discriminate | simpl; lia].
  - intros (c & Hc & Ht).
    destruct c; simpl in Ht; try congruence.
    + replace t with 31 by lia. discriminate.
    + replace t with 16 by lia. discriminate.
    + replace t with 6 by lia. discriminate.
Qed.

(** ** Expiry, keys and replies *)

(** X16.  The tick that brings the countdown from 1 to 0 leaves no
    interval armed; it clears [active] exactly when it submits, that is
    when the draft held by its closure is not blank.  With a blank draft
    the timer stays marked active at 0. *)
Theorem expiry_stops_timer_iff_submitted (w : World) (env : State) :
  reachable w ->
  interval w = Some env ->
  timeRemaining (st w) = Fin 1 ->
  let w' := fst (step Tick w) in
  let submitted := JsString.truthy (JsString.trim (userInput env)) in
  timeRemaining (st w') = Fin 0 /\
  interval w' = None /\
  active (timerSettings (st w')) = negb submitted /\
  requests (snd (step Tick w)) = (if submitted then 1 else 0)%nat.
Proof.
  intros Hr%reachable_armedOk Hi Ht w' submitted.
  pose proof (step_armedOk Tick w Hr) as Hok. fold w' in Hok.
  assert (Hact : active (timerSettings (st w)) = true).
  { unfold armedOk in Hr. rewrite Hi in Hr. tauto. }
  assert (Htime : timeRemaining (st w') = Fin 0).
  { unfold w'. rewrite (st_step_tick_armed w env Hi), timeRemaining_tickCallback.
    by rewrite Ht. }
  split; [exact Htime|]. split.
  - unfold armedOk in Hok. destruct (interval w'); [|reflexivity].
    rewrite Htime in Hok. by destruct Hok as (_ & Hok & _).
  - split.
    + unfold w'. rewrite (st_step_tick_armed w env Hi).
      unfold tickCallback, startDebate. rewrite Ht. simpl.
      fold submitted. destruct submitted; simpl; [reflexivity | exact Hact].
    + rewrite (out_step_tick_armed w env Hi), requests_tickCallback, Ht. reflexivity.
Qed.

Lemma expiry_stops_timer_iff_submitted_witness :
  let w := fst (run [ClickSettings; ChangeMinutes "0"; ChangeSeconds "1";
                     ClickStart] initialWorld) in
  timeRemaining (st (fst (step Tick w))) = Fin 0 /\
  active (timerSettings (st (fst (step Tick w)))) = true.
Proof.
  intros w.
  assert (Hr : reachable w) by (eexists; reflexivity).
  assert (Hi : interval w = Some (st w)) by (vm_compute; reflexivity).
  assert (Ht : timeRemaining (st w) = Fin 1) by (vm_compute; reflexivity).
  destruct (expiry_stops_timer_iff_submitted w (st w) Hr Hi Ht) as (H0 & _ & Ha & _).
  split; [exact H0 | exact Ha].
Defined.

(** X17.  On the page a run of consecutive ticks, of any length, sends at
    most one request. *)
Theorem ticks_submit_at_most_once (w : World) (n : nat) :
  reachable w -> (requests (snd (run (ticks n) w)) <= 1)%nat.
Proof. intros Hr. by apply requests_ticks_le_1, reachable_armedOk. Qed.

Lemma ticks_submit_at_most_once_witness :
  (requests (snd (run (ticks 10) (fst (run overlapRun initialWorld)))) <= 1)%nat.
Proof.
  apply ticks_submit_at_most_once. exists overlapRun. reflexivity.
Defined.

(** X18.  In the draft field only Enter without Shift submits: any other
    key, and Enter with Shift, leaves the page as it is and sends
    nothing, whatever the draft. *)
Theorem only_plain_enter_submits (w : World) (key : string) (shiftKey : bool) :
  key <> "Enter" \/ shiftKey = true ->
  step (KeyDown key shiftKey) w = (w, []).
Proof.
  intros Hk. unfold step, handle, handleKeyDown.
  assert (Hg : String.eqb key "Enter" && negb shiftKey = false).
  { destruct Hk as [Hk| ->]; [|apply andb_false_r].
    apply String.eqb_neq in Hk. by rewrite Hk. }
  rewrite Hg, Nat.add_0_r. by rewrite commit_same.
Qed.

Lemma only_plain_enter_submits_witness :
  let w := fst (run [TypeDraft "Tax cuts help growth"] initialWorld) in
  step (KeyDown "Enter" true) w = (w, []) /\
  step (KeyDown "a" false) w = (w, []).
Proof.
  intros w. split.
  - apply only_plain_enter_submits. by right.
  - apply only_plain_enter_submits. left. discriminate.
Defined.

(** X19.  A settled request appends exactly one message of type ai and
    clears [loading].  The message is the placeholder reply exactly when
    the call threw: the fetch rejected, the body was not JSON, or the
    body was [null] (or [undefined]); in every other case, whatever the
    status, it is an ordinary reply. *)
Theorem placeholder_iff_call_threw (o : FetchOutcome) (s : State) :
  conversations (onSettled o s) = conversations s ++ [replyOf o] /\
  loading (onSettled o s) = false /\
  Message.type (replyOf o) = ai /\
  (isFailedReply (replyOf o) = true <->
   o = NetworkError \/
   exists status, o = HttpResponse status None \/
                  o = HttpResponse status (Some JsNull) \/
                  o = HttpResponse status (Some JsUndefined)).
Proof.
  split; [reflexivity|]. split; [reflexivity|].
  assert (Hai : forall v, isFailedReply (aiMessage v) = false)
    by (intros v; unfold isFailedReply; simpl; by destruct v).
  destruct o as [|status [data|]].
  - split; [reflexivity|]. split; [by left | reflexivity].
  - destruct data; simpl;
      (split; [reflexivity|]); split;
      try (intros _; right; exists status; tauto);
      try reflexivity;
      try (rewrite Hai; discriminate);
      try (intros [H|(x & [H|[H|H]])]; discriminate H).
  - split; [reflexivity|]. split; [|reflexivity].
    intros _. right. exists status. tauto.
Qed.

(** ** Instances *)

Lemma interval_armed_iff_running_witness :
  let w := fst (run [ClickStart; Tick] initialWorld) in
  is_Some (interval w) /\ timeRemaining (st w) = Fin 119.
Proof.
  intros w. split; [|reflexivity].
  apply (interval_armed_iff_running w); [by exists [ClickStart; Tick]|].
  split; [reflexivity | vm_compute; reflexivity].
Defined.

Lemma ticks_count_down_witness :
  let w := fst (run [ClickStart] initialWorld) in
  timeRemaining (st (fst (run (ticks 50) w))) = Fin 70 /\
  timeRemaining (st (fst (run (ticks 500) w))) = Fin 0.
Proof.
  intros w.
  assert (Hr : reachable w) by (exists [ClickStart]; reflexivity).
  assert (Ha : active (timerSettings (st w)) = true) by reflexivity.
  assert (Ht : timeRemaining (st w) = Fin 120) by reflexivity.
  assert (Hb : 0 <= 120 <= 2 ^ 53) by lia.
  split.
  - rewrite (ticks_count_down w 50 120 Hr Ha Ht Hb). reflexivity.
  - rewrite (ticks_count_down w 500 120 Hr Ha Ht Hb). reflexivity.
Defined.

Lemma pause_freezes_countdown_witness :
  let w := fst (run [ClickStart; Tick; Tick] initialWorld) in
  let w1 := fst (step ClickPause w) in
  timeRemaining (st w1) = Fin 118 /\ run (ticks 7) w1 = (w1, []).
Proof.
  intros w w1.
  assert (Hr : reachable w) by (exists [ClickStart; Tick; Tick]; reflexivity).
  assert (Ha : active (timerSettings (st w)) = true) by reflexivity.
  destruct (pause_freezes_countdown w 7 Hr Ha) as (Hst & _ & Hticks).
  fold w1 in Hst, Hticks. split; [|exact Hticks].
  rewrite Hst. reflexivity.
Defined.

Lemma reset_reloads_and_stops_witness :
  let w := fst (run [ClickStart; Tick; Tick] initialWorld) in
  let w1 := fst (step ClickReset w) in
  timeRemaining (st w1) = Fin 120 /\ interval w1 = None /\
  step ClickReset w1 = (w1, []).
Proof.
  intros w w1.
  assert (Hr : reachable w) by (exists [ClickStart; Tick; Tick]; reflexivity).
  destruct (reset_reloads_and_stops w 0 Hr) as (Hst & Hi & _ & Hagain).
  fold w1 in Hst, Hi, Hagain.
  split; [by rewrite Hst|]. split; [exact Hi | exact Hagain].
Defined.

Lemma quick_start_ignores_choice_witness :
  timeRemaining (st (fst (step (ClickQuickStart OneMin) initialWorld))) = Fin 120 /\
  minutes (timerSettings (st (fst (step (ClickQuickStart ThreeMin) initialWorld)))) = Fin 2.
Proof.
  destruct (quick_start_ignores_choice initialWorld OneMin eq_refl) as (_ & Ht & _).
  destruct (quick_start_ignores_choice initialWorld ThreeMin eq_refl) as (_ & _ & Hm).
  split; [by rewrite Ht | by rewrite Hm].
Defined.

Lemma transcript_append_only_witness :
  let w := fst (run [TypeDraft "Tax cuts help growth"] initialWorld) in
  conversations (st (fst (step ClickSend w))) = conversations (st w) \/
  exists m, conversations (st (fst (step ClickSend w))) = conversations (st w) ++ [m].
Proof.
  intros w. apply transcript_append_only. discriminate.
Defined.

Lemma request_is_recorded_witness :
  let w := fst (run [TypeDraft "Tax cuts help growth"] initialWorld) in
  let w' := fst (step ClickSend w) in
  last (conversations (st w')) = Some (userMessage "Tax cuts help growth" "pro") /\
  loading (st w') = true /\ userInput (st w') = "".
Proof.
  intros w w'.
  assert (Hr : reachable w) by (eexists; reflexivity).
  assert (Hin : In (Fetch "Tax cuts help growth" "pro") (snd (step ClickSend w)))
    by (vm_compute; auto).
  destruct (request_is_recorded ClickSend w _ _ Hr Hin) as (H1 & H2 & H3 & _).
  split; [exact H1|]. split; [exact H2 | exact H3].
Defined.

Lemma loading_means_request_in_flight_witness :
  let w := fst (run [TypeDraft "Tax cuts help growth"; ClickSend] initialWorld) in
  loading (st w) = true /\ (1 <= pending w)%nat.
Proof.
  intros w. split; [reflexivity|].
  apply loading_means_request_in_flight; [by eexists | reflexivity].
Defined.

Lemma render_reads_defined_round_witness :
  let w := fst (run [ClickNextRound; ClickSettings; ClickRemoveRound 2]
                  initialWorld) in
  exists r, roundAt (rounds (st w)) (currentRound (st w)) = Some r /\
            headerRoundName (st w) = Some (Some (name r)).
Proof.
  intros w.
  assert (Hr : reachable w) by (eexists; reflexivity).
  exact (proj1 (render_reads_defined_round w Hr)).
Defined.

Lemma round_duration_never_zero_witness :
  let w := fst (run [ClickSettings; ChangeRoundDuration 0 "0"] initialWorld) in
  rounds (st w) !! 0%nat = Some (mkRound "Opening Statement" (Fin 60)) /\
  duration (mkRound "Opening Statement" (Fin 60)) <> Fin 0.
Proof.
  intros w. split; [reflexivity|].
  apply (round_duration_never_zero w); [by eexists|].
  left. reflexivity.
Defined.

Lemma removeRound_active_round_witness :
  let s := setCurrentRound 1 initialState in
  let s' := removeRound s 0 s in
  roundAt (rounds s') (currentRound s') = Some (mkRound "Closing Statement" (Fin 60)).
Proof.
  intros s s'.
  assert (Hlen : (1 < length (rounds s))%nat) by (simpl; lia).
  assert (Hi : (0 < length (rounds s))%nat) by (simpl; lia).
  assert (Hc : cursorOk s) by (unfold cursorOk; simpl; lia).
  destruct (removeRound_active_round s 0 Hlen Hi Hc) as (_ & Hshift & _).
  fold s' in Hshift. rewrite Hshift; [reflexivity | simpl; lia].
Defined.

Lemma round_edit_keeps_timer_witness :
  let w := fst (run [ClickStart; Tick; ClickSettings] initialWorld) in
  let w' := fst (step (ChangeRoundDuration 0 "30") w) in
  timeRemaining (st w') = Fin 119 /\ interval w' = interval w.
Proof.
  intros w w'.
  destruct (round_edit_keeps_timer (ChangeRoundDuration 0 "30") w eq_refl)
    as (_ & Ht & Hi & _).
  fold w' in Ht, Hi. split; [by rewrite Ht | exact Hi].
Defined.

Lemma field_value_round_trip_witness :
  onMinutesChange initialState "2" initialState = initialState /\
  onRoundDurationChange initialState 1 "180" initialState = initialState.
Proof.
  assert (Hr : rounds initialState !! 1%nat = Some (mkRound "Rebuttal" (Fin 180)))
    by reflexivity.
  assert (Hm : minutes (timerSettings initialState) = Fin 2) by reflexivity.
  assert (Hs : seconds (timerSettings initialState) = Fin 0) by reflexivity.
  assert (Hd : duration (mkRound "Rebuttal" (Fin 180)) = Fin 180) by reflexivity.
  assert (Hmb : Z.abs 2 < 2 ^ 53) by lia.
  assert (Hsb : Z.abs 0 < 2 ^ 53) by lia.
  assert (Hdb : Z.abs 180 < 2 ^ 53) by lia.
  assert (Hd0 : 180 <> 0) by lia.
  destruct (field_value_round_trip initialState 1 _ 2 0 180 Hm Hmb Hs Hsb Hr Hd Hdb Hd0)
    as (Hmin & _ & Hdur).
  split; [exact Hmin | exact Hdur].
Defined.

Lemma formatTime_reads_back_witness :
  JsString.parseInt (formatTime (Fin 125)) = Fin 2 /\
  (formatTime (Fin 125) = formatTime (Fin 65) -> 125 = 65).
Proof.
  assert (Ha : 0 <= 125 <= 2 ^ 53) by lia. assert (Hb : 0 <= 65 <= 2 ^ 53) by lia.
  destruct (formatTime_reads_back 125 65 Ha Hb) as (_ & Hm & Hinj).
  split; [exact Hm | exact Hinj].
Defined.

Example formatTime_examples :
  formatTime (Fin 125) = "2:05" /\ formatTime (Fin 0) = "0:00" /\
  formatTime (Fin 3599) = "59:59" /\ formatTime (Fin (-10)) = "-1:0-10" /\
  formatTime (Fin (6 * 10 ^ 22)) = "1e+21:00" /\
  numberToString (Fin (10 ^ 21)) = "1e+21" /\
  JsString.parseInt "1e+21" = Fin 1 /\
  JsString.parseInt "9007199254740993" = Fin 9007199254740992.
Proof. vm_compute. repeat split; reflexivity. Qed.

(** ** The transcript at a submitting tick, and repeated next-round *)

(** X20.  The tick that submits at expiry writes the transcript from its
    closure: the new transcript is the one of the render in which the
    interval was armed plus the user message, so a message appended since
    then, such as a reply that arrived during the last second, is
    dropped. *)
Theorem expiry_submit_rebuilds_transcript (w : World) (env : State) :
  interval w = Some env ->
  timeRemaining (st w) = Fin 1 ->
  JsString.truthy (JsString.trim (userInput env)) = true ->
  conversations (st (fst (step Tick w))) =
    conversations env ++ [userMessage (userInput env) (stance env)] /\
  timerSettings (st (fst (step Tick w))) = withActive false (timerSettings env).
Proof.
  intros Hi Ht Hd. rewrite (st_step_tick_armed w env Hi).
  unfold tickCallback, startDebate. rewrite Ht, Hd. by simpl.
Qed.

Lemma expiry_submit_rebuilds_transcript_witness :
  let w := fst (run (overlapRun ++
                       [Settled (HttpResponse 200
                          (Some (JsObject [("aiResponse", JsString "R")])))])
                  initialWorld) in
  conversations (st w) = [userMessage "A" "pro"; aiMessage (JsString "R")] /\
  conversations (st (fst (step Tick w))) =
    [userMessage "A" "pro"; userMessage "B" "pro"].
Proof.
  intros w. split; [reflexivity|].
  assert (Hi : interval w = Some (st (fst (run overlapRun initialWorld))))
    by (vm_compute; reflexivity).
  destruct (expiry_submit_rebuilds_transcript w _ Hi eq_refl eq_refl) as [Hc _].
  rewrite Hc. reflexivity.
Defined.

Lemma nextRound_rounds (s : State) : rounds (nextRound s s) = rounds s.
Proof.
  unfold nextRound. destruct (_ <? _); [|reflexivity].
  by destruct (roundAt _ _).
Qed.

Lemma nextRound_cursor (s : State) :
  currentRound (nextRound s s) =
  Z.min (currentRound s + 1) (Z.max (currentRound s) (Z.of_nat (length (rounds s)) - 1)).
Proof.
  unfold nextRound.
  destruct (Z.ltb_spec (currentRound s) (Z.of_nat (length (rounds s)) - 1)).
  - destruct (roundAt _ _); simpl; lia.
  - lia.
Qed.

Lemma step_nextRound_plan (w : World) :
  rounds (st (fst (step ClickNextRound w))) = rounds (st w) /\
  currentRound (st (fst (step ClickNextRound w))) =
    Z.min (currentRound (st w) + 1)
      (Z.max (currentRound (st w)) (Z.of_nat (length (rounds (st w))) - 1)).
Proof.
  rewrite st_step. unfold handle, when.
  destruct (Z.ltb_spec (currentRound (st w)) (Z.of_nat (length (rounds (st w))) - 1));
    simpl.
  - split; [apply nextRound_rounds | apply nextRound_cursor].
  - split; [reflexivity | lia].
Qed.

Lemma nextRounds_plan (k : nat) :
  forall w, cursorOk (st w) ->
    let w' := fst (run (repeat ClickNextRound k) w) in
    rounds (st w') = rounds (st w) /\
    currentRound (st w') =
      Z.min (currentRound (st w) + Z.of_nat k) (Z.of_nat (length (rounds (st w))) - 1).
Proof.
  induction k as [|k IH]; intros w Hc; unfold cursorOk in Hc.
  - simpl. split; [reflexivity | lia].
  - change (repeat ClickNextRound (S k)) with (ClickNextRound :: repeat ClickNextRound k).
    rewrite run_cons. cbn [fst].
    destruct (step_nextRound_plan w) as [Hr Hn].
    destruct (IH (fst (step ClickNextRound w))) as [Hr' Hn'].
    { unfold cursorOk. rewrite Hr, Hn. lia. }
    cbv zeta in Hr', Hn'. rewrite Hr', Hn', Hr, Hn. split; [reflexivity | lia].
Qed.

(** X21.  On the page [k] clicks on next-round move the cursor forward by
    [k] rounds but not past the last one, and never change the plan:
    the cursor ends at [min (cursor + k) (len - 1)]. *)
Theorem nextRound_repeated (w : World) (k : nat) :
  reachable w ->
  let w' := fst (run (repeat ClickNextRound k) w) in
  rounds (st w') = rounds (st w) /\
  currentRound (st w') =
    Z.min (currentRound (st w) + Z.of_nat k) (Z.of_nat (length (rounds (st w))) - 1).
Proof. intros Hr. by apply nextRounds_plan, reachable_cursorOk. Qed.

Lemma nextRound_repeated_witness :
  currentRound (st (fst (run (repeat ClickNextRound 1) initialWorld))) = 1 /\
  currentRound (st (fst (run (repeat ClickNextRound 5) initialWorld))) = 2.
Proof.
  assert (Hr : reachable initialWorld) by (exists []; reflexivity).
  split.
  - rewrite (proj2 (nextRound_repeated initialWorld 1 Hr)). reflexivity.
  - rewrite (proj2 (nextRound_repeated initialWorld 5 Hr)). reflexivity.
Defined.
